(** * BasicSpatial: a grid of buckets with an expanding-window nearest-neighbour search

    A shallow embedding of [src/spatial/BasicSpatial.hpp] and the properties of its
    three operations [insert], [find_nearest] and [nearest_neighbor].

    - [int] values are integers of [Z] in the range [INT_MIN .. INT_MAX]; arithmetic
      on them that would leave the range is the outcome [Overflow].
    - [hash_func] divides in binary32, as the source does: the conversion
      [float(coord)], the division by [DIV] and the truncating conversion back to
      [int] are those of the Standard Library's IEEE 754 specification [SpecFloat]
      at precision 24 and maximal exponent 128.
    - [GRID] is a list of lists of cells, read and written through a small monad that
      threads the grid, records every cell index used on it, and has the outcomes
      [OutOfBounds] for an index outside the vectors and [OutOfFuel] for a loop that is
      still running after the allowed number of iterations.
    - [Point] comes from a header that is not part of these sources: its two
      coordinates are the [int]s that [hash_func] receives, and its [distance], the
      [double] it returns, the comparison [<] on it and [__DBL_MAX__] are parameters of
      the development. *)

From Stdlib Require Import ZArith Lia SpecFloat.
From stdpp Require Import base list.
Local Open Scope Z_scope.

(** ** Constants and machine integers *)

Definition DIV : Z := 10.
Definition MAX : Z := 1000.

Definition INT_MIN : Z := - 2 ^ 31.
Definition INT_MAX : Z := 2 ^ 31 - 1.
Definition in_int (z : Z) : bool := (INT_MIN <=? z) && (z <=? INT_MAX).

(** ** Points *)

(** [Point({a, b})] is [mkPoint a b]; [p.get(0)] and [p.get(1)] are [get p 0] and
    [get p 1]. *)
Record Point := mkPoint { px : Z; py : Z }.

Definition get (p : Point) (i : nat) : Z :=
  match i with O => px p | _ => py p end.

Definition int_point (p : Point) : bool := in_int (px p) && in_int (py p).

(** An instance of [distance]: the exact squared Euclidean distance, which orders
    points as the Euclidean distance does.  [FAR] stands for [__DBL_MAX__] there. *)
Definition sq_distance (p q : Point) : Z :=
  (px p - px q) * (px p - px q) + (py p - py q) * (py p - py q).

Definition FAR : Z := 2 ^ 66.

(** ** hash_func *)

(** [float(z)]: the binary32 number nearest to the integer [z]. *)
Definition float_of_int (z : Z) : spec_float := binary_normalize 24 128 z 0 false.

(** The conversion of a binary32 number to [int] truncates toward zero; it is undefined
    ([None]) for infinities, NaN and values outside the range of [int]. *)
Definition int_of_float (f : spec_float) : option Z :=
  match f with
  | S754_zero _ => Some 0
  | S754_finite s m e =>
      let z := cond_Zopp s (if 0 <=? e then Z.pos m * 2 ^ e else Z.pos m / 2 ^ (- e)) in
      if in_int z then Some z else None
  | _ => None
  end.

(** [float(coord) / DIV], with [DIV] converted to [float] for the division. *)
Definition hash_float (coord : Z) : spec_float :=
  SFdiv 24 128 (float_of_int coord) (float_of_int DIV).

(** [int hash_func (int coord) { return (float(coord) / DIV); }].  The undefined case of
    the conversion is given the value 0; [hash_func_defined] shows that it does not
    arise for an [int] argument. *)
Definition hash_func (coord : Z) : Z := default 0 (int_of_float (hash_float coord)).

(** The value left in [v] by the two guards
    [if (v < 0) v = 0; if (v > hash_func(MAX)) v = hash_func(MAX);]. *)
Definition clamp_cell (v : Z) : Z :=
  let v := if v <? 0 then 0 else v in
  if v >? hash_func MAX then hash_func MAX else v.

(** ** The grid *)

Abbreviation Cell := (list Point).
Abbreviation Grid := (list (list (list Point))).

(** [GRID] as constructed: [(MAX/DIV)+1] vectors of [(MAX/DIV)+1] empty lists. *)
Definition GRID_size : nat := Z.to_nat (Z.quot MAX DIV + 1).
Definition GRID_init : Grid := replicate GRID_size (replicate GRID_size []).

(** [GRID[x][y]]: defined only for indices inside both vectors. *)
Definition grid_at (g : Grid) (x y : Z) : option Cell :=
  if (x <? 0) || (y <? 0) then None
  else match g !! Z.to_nat x with
       | Some col => col !! Z.to_nat y
       | None => None
       end.

Definition grid_set (g : Grid) (x y : Z) (c : Cell) : Grid :=
  match g !! Z.to_nat x with
  | Some col => <[Z.to_nat x := <[Z.to_nat y := c]> col]> g
  | None => g
  end.

(** The shape [GRID] has from its construction on. *)
Definition grid_wf (g : Grid) : bool :=
  (length g =? GRID_size)%nat && forallb (fun col => (length col =? GRID_size)%nat) g.

(** ** Outcomes and the monad of grid operations *)

Inductive result (A : Type) : Type :=
  | Ok (a : A)
  | OutOfBounds
  | Overflow
  | OutOfFuel.
Arguments Ok {A} a.
Arguments OutOfBounds {A}.
Arguments Overflow {A}.
Arguments OutOfFuel {A}.

(** A computation takes the grid and gives a value, the grid it leaves, and the list of
    the cell indices it used on [GRID], in order. *)
Definition M (A : Type) : Type := Grid -> result (A * Grid * list (Z * Z)).

Definition ret {A} (a : A) : M A := fun g => Ok (a, g, []).

Definition prepend {A} (t1 : list (Z * Z)) (r : result (A * Grid * list (Z * Z)))
    : result (A * Grid * list (Z * Z)) :=
  match r with
  | Ok (a, g, t2) => Ok (a, g, t1 ++ t2)
  | OutOfBounds => OutOfBounds
  | Overflow => Overflow
  | OutOfFuel => OutOfFuel
  end.

Definition bind {A B} (m : M A) (f : A -> M B) : M B := fun g =>
  match m g with
  | Ok (a, g1, t1) => prepend t1 (f a g1)
  | OutOfBounds => OutOfBounds
  | Overflow => Overflow
  | OutOfFuel => OutOfFuel
  end.

Notation "'let!' x ':=' m 'in' k" := (bind m (fun x => k))
  (at level 10, x name, m at level 100, k at level 200).

(** The value a computation returns, without the grid and the cells read. *)
Definition returned {A} (r : result (A * Grid * list (Z * Z))) : result A :=
  match r with
  | Ok (a, _, _) => Ok a
  | OutOfBounds => OutOfBounds
  | Overflow => Overflow
  | OutOfFuel => OutOfFuel
  end.

(** [for (auto i : GRID[x][y])]: the cell is read. *)
Definition read_cell (x y : Z) : M Cell := fun g =>
  match grid_at g x y with
  | Some c => Ok (c, g, [(x, y)])
  | None => OutOfBounds
  end.

(** [auto& a = GRID[x][y]; a.push_back(p);] *)
Definition push_back (x y : Z) (p : Point) : M unit := fun g =>
  match grid_at g x y with
  | Some a => Ok (tt, grid_set g x y (a ++ [p]), [(x, y)])
  | None => OutOfBounds
  end.

Definition int_add (a b : Z) : M Z := fun g =>
  if in_int (a + b) then Ok (a + b, g, []) else Overflow.

Definition int_sub (a b : Z) : M Z := fun g =>
  if in_int (a - b) then Ok (a - b, g, []) else Overflow.

(** ** insert *)

Definition insert (new_point : Point) : M unit :=
  let x := hash_func (get new_point 0) in
  let y := hash_func (get new_point 1) in
  let x := if x <? 0 then 0 else x in
  let y := if y <? 0 then 0 else y in
  let x := if x >? hash_func MAX then hash_func MAX else x in
  let y := if y >? hash_func MAX then hash_func MAX else y in
  push_back x y new_point.

(** A sequence of insertions, and the grid it builds from the empty one. *)
Fixpoint insert_all (ps : list Point) : M unit :=
  match ps with
  | [] => ret tt
  | p :: ps' => let! _ := insert p in insert_all ps'
  end.

Definition grid_with (ps : list Point) : Grid :=
  match insert_all ps GRID_init with
  | Ok (_, g, _) => g
  | _ => GRID_init
  end.

(** The cell of a point in the words of the specification:
    clamp (floor (x / DIV), 0, MAX / DIV) on each axis. *)
Definition spec_cell_index (v : Z) : Z := Z.max 0 (Z.min (v / DIV) (MAX / DIV)).

Definition cell_of (p : Point) : Z * Z := (spec_cell_index (px p), spec_cell_index (py p)).

(** ** The cells of a window that a scan is to read *)

(** [hi, hi - 1, ...]: [n] values downwards from [hi]. *)
Fixpoint countdown (hi : Z) (n : nat) : list Z :=
  match n with
  | O => []
  | S n' => hi :: countdown (hi - 1) n'
  end.

(** For each x of the clamped range, from the largest down: the cell of the top row,
    then the cell of the bottom row. *)
Definition ring_rows (maxx maxy minx miny : Z) : list (Z * Z) :=
  let minx := Z.max minx 0 in
  let maxx := Z.min maxx (hash_func MAX) in
  flat_map (fun x => [(x, clamp_cell maxy); (x, clamp_cell miny)])
           (countdown maxx (Z.to_nat (maxx - minx + 1))).

Definition cell_points (g : Grid) (xy : Z * Z) : list Point :=
  default [] (grid_at g xy.1 xy.2).

(** The points met when the cells [t] are read one after the other. *)
Definition points_of (g : Grid) (t : list (Z * Z)) : list Point :=
  flat_map (cell_points g) t.

(** ** The search window of nearest_neighbor *)

Record window : Type :=
  mkWindow { curmaxx : Z; curmaxy : Z; curminx : Z; curminy : Z }.

(** The test that ends the search with the sentinel. *)
Definition exhausted (w : window) : bool :=
  (curmaxy w >? hash_func MAX) && (curmaxx w >? hash_func MAX)
  && (curminx w <? 0) && (curminy w <? 0).

Definition grow (w : window) : window :=
  mkWindow (curmaxx w + 1) (curmaxy w + 1) (curminx w - 1) (curminy w - 1).

Definition ring_of (w : window) : list (Z * Z) :=
  ring_rows (curmaxx w) (curmaxy w) (curminx w) (curminy w).

(** The number of times the window still has to grow before [exhausted] holds. *)
Definition rings_needed (w : window) : Z :=
  Z.max (Z.max (hash_func MAX + 1 - curmaxy w) (hash_func MAX + 1 - curmaxx w))
        (Z.max (curminx w + 1) (curminy w + 1)).

(** The window can grow until [exhausted] holds without leaving the range of [int]. *)
Definition window_safe (w : window) : Prop :=
  let r := Z.max 0 (rings_needed w) in
  (INT_MIN + r <= curmaxx w <= INT_MAX - r)
  /\ (INT_MIN + r <= curmaxy w <= INT_MAX - r)
  /\ (INT_MIN + r <= curminx w <= INT_MAX - r)
  /\ (INT_MIN + r <= curminy w <= INT_MAX - r).

(** The window nearest_neighbor starts from: the cell of the reference point, not
    clamped. *)
Definition home_window (reference : Point) : window :=
  let x := hash_func (get reference 0) in
  let y := hash_func (get reference 1) in
  mkWindow x y x y.

(** The window after it has grown [n] times, and the cells of its first [n] rings. *)
Fixpoint grow_n (n : nat) (w : window) : window :=
  match n with
  | O => w
  | S n' => grow_n n' (grow w)
  end.

Fixpoint rings_trace (n : nat) (w : window) : list (Z * Z) :=
  match n with
  | O => []
  | S n' => ring_of w ++ rings_trace n' (grow w)
  end.

(** [p] is held by some cell of the grid. *)
Definition stored (g : Grid) (p : Point) : Prop :=
  exists x y cell, grid_at g x y = Some cell /\ p ∈ cell.

(** ** find_nearest and nearest_neighbor *)

Section BasicSpatial.
Context {D : Type}.
Variable distance : Point -> Point -> D.
Variable dlt : D -> D -> bool.
Variable DBL_MAX : D.

(** The three output parameters [nearest_], [dist_] and [fstset_]. *)
Record candidate : Type := mkCandidate { nearest_ : Point; dist_ : D; fstset_ : bool }.

(** The body of both [for (auto i : ...)] loops. *)
Definition visit (reference_ : Point) (c : candidate) (i : Point) : candidate :=
  if negb (fstset_ c) then
    {| nearest_ := i; dist_ := distance i reference_; fstset_ := true |}
  else if dlt (distance i reference_) (dist_ c) then
    {| nearest_ := i; dist_ := distance i reference_; fstset_ := fstset_ c |}
  else c.

Definition scan_cell (x y : Z) (reference_ : Point) (c : candidate) : M candidate :=
  let! cell := read_cell x y in
  ret (fold_left (visit reference_) cell c).

(** [for (int curx = maxx; curx >= minx; curx--)], with the six guards at the head of
    its body; [fuel] bounds the number of iterations. *)
Fixpoint find_nearest_loop (fuel : nat) (minx : Z) (reference_ : Point)
    (curx maxy miny : Z) (c : candidate) : M candidate :=
  if curx >=? minx then
    match fuel with
    | O => fun _ => OutOfFuel
    | S fuel' =>
        let curx := if curx <? 0 then 0 else curx in
        let maxy := if maxy <? 0 then 0 else maxy in
        let curx := if curx >? hash_func MAX then hash_func MAX else curx in
        let maxy := if maxy >? hash_func MAX then hash_func MAX else maxy in
        let miny := if miny <? 0 then 0 else miny in
        let miny := if miny >? hash_func MAX then hash_func MAX else miny in
        let! c := scan_cell curx maxy reference_ c in
        let! c := scan_cell curx miny reference_ c in
        let! curx := int_sub curx 1 in
        find_nearest_loop fuel' minx reference_ curx maxy miny c
    end
  else ret c.

Definition find_nearest (maxx maxy minx miny : Z) (reference_ : Point)
    (c : candidate) : M candidate :=
  let minx := if minx <? 0 then 0 else minx in
  let miny := if miny <? 0 then 0 else miny in
  let maxx := if maxx >? hash_func MAX then hash_func MAX else maxx in
  let maxy := if maxy >? hash_func MAX then hash_func MAX else maxy in
  find_nearest_loop (Z.to_nat (maxx - minx + 1)) minx reference_ maxx maxy miny c.

(** [while (!fstset)]; [fuel] bounds the number of times its body runs. *)
Fixpoint nearest_neighbor_loop (fuel : nat) (reference : Point)
    (w : window) (c : candidate) : M Point :=
  if negb (fstset_ c) then
    match fuel with
    | O => fun _ => OutOfFuel
    | S fuel' =>
        if (curmaxy w >? hash_func MAX) && (curmaxx w >? hash_func MAX)
           && (curminx w <? 0) && (curminy w <? 0)
        then ret (mkPoint (-1) (-1))
        else
          let! c := find_nearest (curmaxx w) (curmaxy w) (curminx w) (curminy w)
                      reference c in
          let! maxx := int_add (curmaxx w) 1 in
          let! maxy := int_add (curmaxy w) 1 in
          let! minx := int_sub (curminx w) 1 in
          let! miny := int_sub (curminy w) 1 in
          let! c := (if fstset_ c
                     then find_nearest maxx maxy minx miny reference c
                     else ret c) in
          nearest_neighbor_loop fuel' reference (mkWindow maxx maxy minx miny) c
    end
  else ret (nearest_ c).

(** [nearest = Point({0, 0}); dist = __DBL_MAX__; fstset = 0]. *)
Definition no_candidate : candidate :=
  {| nearest_ := mkPoint 0 0; dist_ := DBL_MAX; fstset_ := false |}.

(** The loop is given [rings_needed + 1] iterations for its starting window; it is
    proved below that it never needs more. *)
Definition nearest_neighbor (reference : Point) : M Point :=
  let x := hash_func (get reference 0) in
  let y := hash_func (get reference 1) in
  let w := mkWindow x y x y in
  nearest_neighbor_loop (S (Z.to_nat (rings_needed w))) reference w
    {| nearest_ := mkPoint 0 0; dist_ := DBL_MAX; fstset_ := false |}.

(** [c] holds a point of [seen] that no point of [seen] beats on distance. *)
Definition best_of (reference_ : Point) (seen : list Point) (c : candidate) : Prop :=
  fstset_ c = true
  /\ nearest_ c ∈ seen
  /\ dist_ c = distance (nearest_ c) reference_
  /\ forall p, p ∈ seen -> dlt (distance p reference_) (dist_ c) = false.

(** The candidate after the rows of [w] have been scanned. *)
Definition scan_ring (reference : Point) (g : Grid) (w : window) (c : candidate)
    : candidate :=
  fold_left (visit reference) (points_of g (ring_of w)) c.

(** The candidate, and the cells read, after one run of the loop body from [w]. *)
Definition after_step (reference : Point) (g : Grid) (w : window) (c : candidate)
    : candidate :=
  let c1 := scan_ring reference g w c in
  if fstset_ c1 then scan_ring reference g (grow w) c1 else c1.

Definition step_trace (reference : Point) (g : Grid) (w : window) (c : candidate)
    : list (Z * Z) :=
  ring_of w ++ (if fstset_ (scan_ring reference g w c) then ring_of (grow w) else []).
(** [c] holds the first point of [l], in the order of [l], that no point of [l] beats
    on distance: the points before it are strictly farther, the points after it are
    not nearer. *)
Definition first_best_of (reference_ : Point) (l : list Point) (c : candidate) : Prop :=
  fstset_ c = true
  /\ dist_ c = distance (nearest_ c) reference_
  /\ exists l1 l2,
       l = l1 ++ nearest_ c :: l2
       /\ (forall p, p ∈ l1 -> dlt (dist_ c) (distance p reference_) = true)
       /\ (forall p, p ∈ l2 -> dlt (distance p reference_) (dist_ c) = false).
End BasicSpatial.

Arguments hash_func : simpl never.

(** * Binary32 arithmetic

    Bounds on what [binary_round_aux] and [SFdiv] return for arguments of the size that
    occurs in [hash_func]: the result is a normal number whose magnitude is known to
    within a factor of two. *)

Module Binary32.

Lemma digits2_size p : digits2_pos p = Pos.size p.
Proof. induction p; simpl; congruence. Qed.

Lemma digits_bounds p :
  2 ^ (Z.pos (digits2_pos p) - 1) <= Z.pos p < 2 ^ Z.pos (digits2_pos p).
Proof.
  rewrite digits2_size. split.
  - pose proof (Pos.size_le p) as H.
    apply Pos2Z.pos_le_pos in H. rewrite Pos2Z.inj_pow in H.
    replace (Z.pos (Pos.size p)) with (Z.succ (Z.pos (Pos.size p) - 1)) in H by lia.
    rewrite Z.pow_succ_r in H by lia. lia.
  - pose proof (Pos.size_gt p) as H.
    apply Pos2Z.pos_lt_pos in H. now rewrite Pos2Z.inj_pow in H.
Qed.

Lemma digits_unique p k :
  2 ^ (k - 1) <= Z.pos p < 2 ^ k -> Z.pos (digits2_pos p) = k.
Proof.
  intros [Hlo Hhi]. pose proof (digits_bounds p) as [Dlo Dhi].
  set (d := Z.pos (digits2_pos p)) in *.
  assert (0 < k).
  { destruct (Z.compare_spec k 0) as [->|Hk|Hk]; [simpl in Hhi; lia| |lia].
    rewrite Z.pow_neg_r in Hhi by lia. lia. }
  destruct (Z_lt_le_dec d k) as [Hlt|Hge].
  - assert (2 ^ d <= 2 ^ (k - 1)) by (apply Z.pow_le_mono_r; lia). lia.
  - destruct (Z_lt_le_dec k d) as [Hlt|Hge'].
    + assert (2 ^ k <= 2 ^ (d - 1)) by (apply Z.pow_le_mono_r; lia). lia.
    + lia.
Qed.

Lemma shr_m_shr_1 mrs : 0 <= shr_m mrs -> shr_m (shr_1 mrs) = shr_m mrs / 2.
Proof.
  destruct mrs as [m r s]; simpl; intros Hm.
  destruct m as [|[p|p|]|p]; simpl; try lia; try reflexivity.
  - rewrite Pos2Z.inj_xI. Z.div_mod_to_equations; lia.
  - rewrite Pos2Z.inj_xO. Z.div_mod_to_equations; lia.
Qed.

Lemma shr_m_iter p : forall mrs,
  0 <= shr_m mrs -> shr_m (SpecFloat.iter_pos shr_1 p mrs) = shr_m mrs / 2 ^ Z.pos p.
Proof.
  induction p as [p IH|p IH|]; intros mrs Hm; simpl SpecFloat.iter_pos.
  - assert (H1 : 0 <= shr_m (shr_1 mrs)) by (rewrite shr_m_shr_1 by done; apply Z.div_pos; lia).
    assert (H2 : 0 <= shr_m (SpecFloat.iter_pos shr_1 p (shr_1 mrs)))
      by (rewrite IH by done; apply Z.div_pos; lia).
    rewrite !IH, shr_m_shr_1 by done.
    rewrite !Z.div_div by lia.
    replace (Z.pos p~1) with (1 + Z.pos p + Z.pos p) by lia.
    rewrite !Z.pow_add_r, Z.pow_1_r by lia.
    f_equal. lia.
  - assert (H2 : 0 <= shr_m (SpecFloat.iter_pos shr_1 p mrs))
      by (rewrite IH by done; apply Z.div_pos; lia).
    rewrite !IH by done.
    rewrite !Z.div_div by lia.
    replace (Z.pos p~0) with (Z.pos p + Z.pos p) by lia.
    rewrite !Z.pow_add_r by lia. reflexivity.
  - rewrite shr_m_shr_1 by done. reflexivity.
Qed.

Lemma round_nearest_even_cases m l :
  round_nearest_even m l = m \/ round_nearest_even m l = m + 1.
Proof.
  destruct l as [|[]]; simpl; auto. destruct (Z.even m); auto.
Qed.

Lemma shr_fexp_spec m e l :
  0 < m -> 24 <= Zdigits2 m -> -149 <= Zdigits2 m + e - 24 ->
  exists mrs, shr_fexp 24 128 m e l = (mrs, Zdigits2 m + e - 24)
              /\ shr_m mrs = m / 2 ^ (Zdigits2 m - 24).
Proof.
  intros Hm Hd He. unfold shr_fexp, fexp.
  change (emin 24 128) with (-149).
  rewrite Z.max_l by lia.
  replace (Zdigits2 m + e - 24 - e) with (Zdigits2 m - 24) by lia.
  destruct (Zdigits2 m - 24) as [|n|n] eqn:Hn; try lia.
  - simpl. eexists; split; [f_equal; lia|].
    destruct l as [|[]]; simpl; rewrite Z.div_1_r; reflexivity.
  - simpl. eexists; split; [f_equal; lia|].
    rewrite shr_m_iter; destruct l as [|[]]; simpl; try reflexivity; lia.
Qed.


Lemma Zdigits2_bounds m :
  0 < m -> 2 ^ (Zdigits2 m - 1) <= m < 2 ^ Zdigits2 m.
Proof. destruct m as [|p|p]; try lia. intros _. apply digits_bounds. Qed.

Lemma Zdigits2_unique m k :
  2 ^ (k - 1) <= m < 2 ^ k -> 0 < m -> Zdigits2 m = k.
Proof. destruct m as [|p|p]; try lia. intros H _. now apply digits_unique. Qed.

Lemma binary_round_aux_normal s mx ex lx :
  0 < mx -> 24 <= Zdigits2 mx -> -125 <= Zdigits2 mx + ex <= 127 ->
  exists m e,
    binary_round_aux 24 128 s mx ex lx = S754_finite s m e
    /\ 2 ^ 23 <= Z.pos m < 2 ^ 24
    /\ (24 + e = Zdigits2 mx + ex
        \/ (24 + e = Zdigits2 mx + ex + 1 /\ Z.pos m = 2 ^ 23
            /\ mx / 2 ^ (Zdigits2 mx - 24) = 2 ^ 24 - 1)).
Proof.
  intros Hm Hd He.
  destruct (shr_fexp_spec mx ex lx) as (mrs1 & E1 & M1); try lia.
  unfold binary_round_aux. rewrite E1.
  pose proof (Zdigits2_bounds mx Hm) as [Dlo Dhi].
  set (d := Zdigits2 mx) in *.
  assert (Hm1 : 2 ^ 23 <= shr_m mrs1 < 2 ^ 24).
  { rewrite M1.
    assert (Hp : 0 < 2 ^ (d - 24)) by (apply Z.pow_pos_nonneg; lia).
    split.
    - apply Z.div_le_lower_bound; [done|].
      rewrite <- Z.pow_add_r by lia. replace (d - 24 + 23) with (d - 1) by lia. done.
    - apply Z.div_lt_upper_bound; [done|].
      rewrite <- Z.pow_add_r by lia. replace (d - 24 + 24) with d by lia. done. }
  set (m2 := round_nearest_even (shr_m mrs1) (loc_of_shr_record mrs1)).
  assert (Hm2 : 2 ^ 23 <= m2 < 2 ^ 24 \/ (m2 = 2 ^ 24 /\ shr_m mrs1 = 2 ^ 24 - 1)).
  { destruct (round_nearest_even_cases (shr_m mrs1) (loc_of_shr_record mrs1)) as [E|E];
      fold m2 in E; lia. }
  set (e1 := d + ex - 24) in *.
  destruct Hm2 as [Hm2|Hm2].
  - assert (Hd2 : Zdigits2 m2 = 24) by (apply Zdigits2_unique; lia).
    destruct (shr_fexp_spec m2 e1 loc_Exact) as (mrs2 & E2 & M2); try lia.
    rewrite E2, M2, Hd2. change (2 ^ (24 - 24)) with 1. rewrite Z.div_1_r.
    destruct m2 as [|p|p]; try lia.
    replace (24 + e1 - 24 <=? 128 - 24) with true by lia.
    exists p, (24 + e1 - 24). split; [done|]. split; [done|]. left. lia.
  - destruct Hm2 as [Hm2 Hc]. rewrite M1 in Hc.
    assert (Hd2 : Zdigits2 m2 = 25) by (rewrite Hm2; reflexivity).
    destruct (shr_fexp_spec m2 e1 loc_Exact) as (mrs2 & E2 & M2); try lia.
    rewrite E2, M2, Hd2, Hm2. change (2 ^ 24 / 2 ^ (25 - 24)) with (Z.pos 8388608).
    cbv iota.
    replace (25 + e1 - 24 <=? 128 - 24) with true by lia.
    exists 8388608%positive, (25 + e1 - 24). split; [done|]. split; [done|].
    right. split; [lia|]. split; [reflexivity|done].
Qed.

Lemma pos_iter_xO p n : Z.pos (Pos.iter xO p n) = Z.pos p * 2 ^ Z.pos n.
Proof.
  induction n as [|n IH] using Pos.peano_ind.
  - simpl. lia.
  - rewrite Pos.iter_succ, Pos2Z.inj_xO, IH, Pos2Z.inj_succ, Z.pow_succ_r by lia. lia.
Qed.

Lemma binary_round_int s p :
  Z.pos (digits2_pos p) <= 100 ->
  exists m e,
    binary_round 24 128 s p 0 = S754_finite s m e
    /\ 2 ^ 23 <= Z.pos m < 2 ^ 24
    /\ (24 + e = Z.pos (digits2_pos p)
        \/ (24 + e = Z.pos (digits2_pos p) + 1 /\ Z.pos m = 2 ^ 23)).
Proof.
  intros Hd. unfold binary_round, shl_align, fexp.
  change (emin 24 128) with (-149).
  pose proof (digits_bounds p) as [Dlo Dhi].
  set (d := Z.pos (digits2_pos p)) in *.
  rewrite Z.max_l by lia.
  destruct (d + 0 - 24 - 0) as [|n|n] eqn:Hn.
  - destruct (binary_round_aux_normal s (Z.pos p) 0 loc_Exact) as (m & e & E & Hm & He);
      simpl Zdigits2; fold d; try lia.
    exists m, e. split; [done|]. split; [done|]. simpl Zdigits2 in He. fold d in He. lia.
  - destruct (binary_round_aux_normal s (Z.pos p) 0 loc_Exact) as (m & e & E & Hm & He);
      simpl Zdigits2; fold d; try lia.
    exists m, e. split; [done|]. split; [done|]. simpl Zdigits2 in He. fold d in He. lia.
  - assert (Hmz : 2 ^ 23 <= Z.pos (Pos.iter xO p n) < 2 ^ 24).
    { rewrite pos_iter_xO. replace (Z.pos n) with (24 - d) by lia.
      assert (E23 : 2 ^ 23 = 2 ^ (d - 1) * 2 ^ (24 - d))
        by (rewrite <- Z.pow_add_r by lia; f_equal; lia).
      assert (E24 : 2 ^ 24 = 2 ^ d * 2 ^ (24 - d))
        by (rewrite <- Z.pow_add_r by lia; f_equal; lia).
      assert (0 < 2 ^ (24 - d)) by (apply Z.pow_pos_nonneg; lia).
      rewrite E23, E24. nia. }
    assert (Hdz : Zdigits2 (Z.pos (Pos.iter xO p n)) = 24)
      by (apply Zdigits2_unique; lia).
    destruct (binary_round_aux_normal s (Z.pos (Pos.iter xO p n)) (d + 0 - 24) loc_Exact)
      as (m & e & E & Hm & He); try lia.
    exists m, e. split; [done|]. split; [done|]. lia.
Qed.

Lemma float_of_int_DIV : float_of_int DIV = S754_finite false 10485760 (-20).
Proof. reflexivity. Qed.

Lemma SFdiv_ten s m1 e1 :
  2 ^ 23 <= Z.pos m1 < 2 ^ 24 -> -23 <= e1 <= 100 ->
  exists m e,
    SFdiv 24 128 (S754_finite s m1 e1) (float_of_int DIV) = S754_finite s m e
    /\ 2 ^ 23 <= Z.pos m < 2 ^ 24
    /\ 20 + e1 <= 24 + e <= 22 + e1
    /\ (Z.pos m1 = 2 ^ 23 -> 24 + e = 20 + e1).
Proof.
  intros Hm1 He1. rewrite float_of_int_DIV.
  unfold SFdiv, SFdiv_core_binary, fexp.
  change (emin 24 128) with (-149).
  assert (Hd1 : Zdigits2 (Z.pos m1) = 24) by (apply Zdigits2_unique; lia).
  rewrite Hd1. change (Zdigits2 10485760) with 24.
  rewrite Z.max_l by lia. rewrite Z.min_l by lia.
  replace (e1 - -20 - (24 + e1 - (24 + -20) - 24)) with 24 by lia.
  rewrite Z.shiftl_mul_pow2 by lia.
  pose proof (Z_div_mod (Z.pos m1 * 2 ^ 24) 10485760 eq_refl) as Hqr.
  destruct (Z.div_eucl (Z.pos m1 * 2 ^ 24) 10485760) as [q r].
  destruct Hqr as [Hq Hr].
  change (2 ^ 24) with 16777216 in Hq. change (2 ^ 23) with 8388608 in Hm1.
  change (2 ^ 24) with 16777216 in Hm1.
  assert (Hq1 : 2 ^ 23 <= q < 2 ^ 25)
    by (change (2 ^ 23) with 8388608; change (2 ^ 25) with 33554432; lia).
  assert (Hdq : Zdigits2 q = 24 \/ Zdigits2 q = 25).
  { destruct (Z_lt_le_dec q (2 ^ 24)).
    - left. apply Zdigits2_unique; lia.
    - right. apply Zdigits2_unique; lia. }
  destruct (binary_round_aux_normal (xorb s false) q (24 + e1 - (24 + -20) - 24)
              (new_location 10485760 r)) as (m & e & E & Hm & He); try lia.
  rewrite xorb_false_r in E.
  exists m, e. split; [rewrite xorb_false_r; done|]. split; [done|]. split; [lia|].
  intros E23. change (2 ^ 23) with 8388608 in E23.
  assert (q = 13421772) by lia. subst q.
  change (Zdigits2 13421772) with 24 in He.
  change (13421772 / 2 ^ (24 - 24)) with 13421772 in He.
  change (2 ^ 24 - 1) with 16777215 in He. lia.
Qed.

Lemma hash_float_finite s p :
  Z.pos p < 2 ^ 31 ->
  exists m e,
    SFdiv 24 128 (binary_round 24 128 s p 0) (float_of_int DIV) = S754_finite s m e
    /\ 2 ^ 23 <= Z.pos m < 2 ^ 24
    /\ Z.pos (digits2_pos p) - 4 <= 24 + e <= 29.
Proof.
  intros Hp.
  pose proof (digits_bounds p) as [Dlo Dhi].
  assert (Hd : Z.pos (digits2_pos p) <= 31).
  { destruct (Z_lt_le_dec 31 (Z.pos (digits2_pos p))) as [Hgt|]; [|done].
    assert (2 ^ 31 <= 2 ^ (Z.pos (digits2_pos p) - 1)) by (apply Z.pow_le_mono_r; lia).
    lia. }
  destruct (binary_round_int s p) as (m1 & e1 & E1 & Hm1 & He1); [lia|].
  rewrite E1.
  destruct (SFdiv_ten s m1 e1) as (m & e & E & Hm & He & Hc); [done|lia|].
  exists m, e. split; [done|]. split; [done|].
  destruct He1 as [He1|[He1 Hc1]]; [lia|]. specialize (Hc Hc1). lia.
Qed.


Lemma trunc_bounds m e :
  2 ^ 23 <= Z.pos m < 2 ^ 24 -> -100 <= e ->
  let t := if 0 <=? e then Z.pos m * 2 ^ e else Z.pos m / 2 ^ (- e) in
  0 <= t /\ (forall k, 0 <= k -> 24 + e <= k -> t < 2 ^ k)
  /\ (forall k, 0 <= k -> k + 1 <= 24 + e -> 2 ^ k <= t).
Proof.
  intros Hm He. cbv zeta.
  destruct (Z.leb_spec 0 e) as [H0|H0].
  - assert (Hp : 0 < 2 ^ e) by (apply Z.pow_pos_nonneg; lia).
    split; [apply Z.mul_nonneg_nonneg; lia|]. split; intros k Hk.
    + intros Hk'. assert (H : 2 ^ (24 + e) <= 2 ^ k) by (apply Z.pow_le_mono_r; lia).
      rewrite (Z.pow_add_r 2 24 e) in H by lia.
      assert (Z.pos m * 2 ^ e < 2 ^ 24 * 2 ^ e) by (apply Z.mul_lt_mono_pos_r; lia).
      lia.
    + intros Hk'. assert (H : 2 ^ k <= 2 ^ (23 + e)) by (apply Z.pow_le_mono_r; lia).
      rewrite (Z.pow_add_r 2 23 e) in H by lia.
      assert (2 ^ 23 * 2 ^ e <= Z.pos m * 2 ^ e) by (apply Z.mul_le_mono_nonneg_r; lia).
      lia.
  - assert (Hp : 0 < 2 ^ (- e)) by (apply Z.pow_pos_nonneg; lia).
    split; [apply Z.div_pos; lia|]. split; intros k Hk.
    + intros Hk'. apply Z.div_lt_upper_bound; [done|].
      assert (H : 2 ^ 24 <= 2 ^ (- e + k)) by (apply Z.pow_le_mono_r; lia).
      rewrite (Z.pow_add_r 2 (- e) k) in H by lia. lia.
    + intros Hk'. apply Z.div_le_lower_bound; [done|].
      assert (H : 2 ^ (- e + k) <= 2 ^ 23) by (apply Z.pow_le_mono_r; lia).
      rewrite (Z.pow_add_r 2 (- e) k) in H by lia. lia.
Qed.

End Binary32.

(** * hash_func on the range of int *)

Lemma in_int_spec z : in_int z = true <-> INT_MIN <= z <= INT_MAX.
Proof. unfold in_int. rewrite andb_true_iff, !Z.leb_le. tauto. Qed.

Lemma hash_func_0 : hash_func 0 = 0.
Proof. reflexivity. Qed.

Lemma hash_func_INT_MIN : hash_func INT_MIN = -214748368.
Proof. reflexivity. Qed.

Lemma hash_float_signed s p :
  Z.pos p < 2 ^ 31 ->
  exists t, int_of_float (SFdiv 24 128 (binary_round 24 128 s p 0) (float_of_int DIV))
            = Some (cond_Zopp s t)
            /\ 0 <= t < 2 ^ 29 /\ (2048 <= Z.pos p -> 128 <= t).
Proof.
  intros Hp.
  destruct (Binary32.hash_float_finite s p Hp) as (m & e & E & Hm & He).
  rewrite E. unfold int_of_float.
  pose proof (Binary32.digits_bounds p) as [Dlo Dhi].
  destruct (Binary32.trunc_bounds m e Hm) as (T0 & Thi & Tlo); [lia|].
  set (t := if 0 <=? e then Z.pos m * 2 ^ e else Z.pos m / 2 ^ (- e)) in *.
  specialize (Thi 29 ltac:(lia) ltac:(lia)).
  exists t. split; [|split; [lia|]].
  - replace (in_int (cond_Zopp s t)) with true; [done|].
    symmetry. apply in_int_spec. unfold INT_MIN, INT_MAX.
    change (2 ^ 29) with 536870912 in Thi.
    destruct s; simpl; lia.
  - intros Hbig. apply (Tlo 7); [lia|].
    assert (12 <= Z.pos (digits2_pos p)); [|lia].
    destruct (Z_lt_le_dec (Z.pos (digits2_pos p)) 12) as [Hlt|]; [|done].
    assert (2 ^ Z.pos (digits2_pos p) <= 2 ^ 11) by (apply Z.pow_le_mono_r; lia).
    change (2 ^ 11) with 2048 in *. lia.
Qed.

Lemma hash_float_pos p :
  hash_float (Z.pos p) = SFdiv 24 128 (binary_round 24 128 false p 0) (float_of_int DIV).
Proof. reflexivity. Qed.

Lemma hash_float_neg p :
  hash_float (Z.neg p) = SFdiv 24 128 (binary_round 24 128 true p 0) (float_of_int DIV).
Proof. reflexivity. Qed.

Lemma hash_func_defined coord :
  in_int coord = true -> int_of_float (hash_float coord) = Some (hash_func coord).
Proof.
  rewrite in_int_spec. unfold INT_MIN, INT_MAX. intros Hc.
  destruct coord as [|p|p].
  - reflexivity.
  - destruct (hash_float_signed false p) as (t & E & _); [lia|].
    unfold hash_func. rewrite ?hash_float_pos, ?hash_float_neg. now rewrite E.
  - destruct (Z.eq_dec (Z.neg p) (- 2 ^ 31)) as [->|Hne]; [reflexivity|].
    destruct (hash_float_signed true p) as (t & E & _); [lia|].
    unfold hash_func. rewrite ?hash_float_pos, ?hash_float_neg. now rewrite E.
Qed.

Lemma hash_func_nonneg coord :
  0 <= coord <= INT_MAX ->
  0 <= hash_func coord < 2 ^ 29 /\ (2048 <= coord -> 128 <= hash_func coord).
Proof.
  unfold INT_MAX. intros Hc. destruct coord as [|p|p]; try lia.
  - rewrite hash_func_0. lia.
  - destruct (hash_float_signed false p) as (t & E & Ht & Hbig); [lia|].
    unfold hash_func. rewrite ?hash_float_pos, ?hash_float_neg, E. simpl. lia.
Qed.

Lemma hash_func_neg coord :
  INT_MIN <= coord < 0 -> - 2 ^ 29 < hash_func coord <= 0.
Proof.
  unfold INT_MIN. intros Hc. destruct coord as [|p|p]; try lia.
  destruct (Z.eq_dec (Z.neg p) (- 2 ^ 31)) as [->|Hne].
  - change (hash_func (- 2 ^ 31)) with (-214748368). lia.
  - destruct (hash_float_signed true p) as (t & E & Ht & Hbig); [lia|].
    unfold hash_func. rewrite ?hash_float_pos, ?hash_float_neg, E. simpl. lia.
Qed.

Lemma hash_func_small_check :
  forallb (fun n => hash_func (Z.of_nat n) =? Z.of_nat n / DIV) (seq 0 2048) = true.
Proof. vm_compute. reflexivity. Qed.

Lemma hash_func_small coord :
  0 <= coord < 2048 -> hash_func coord = coord / DIV.
Proof.
  intros Hc. pose proof hash_func_small_check as H.
  rewrite forallb_forall in H.
  specialize (H (Z.to_nat coord)). rewrite Z2Nat.id in H by lia.
  apply Z.eqb_eq, H, in_seq. lia.
Qed.

(** * The grid *)

Ltac zcases :=
  repeat match goal with
  | |- context [?a >? ?b] => rewrite (Z.gtb_ltb a b)
  | |- context [?a >=? ?b] => rewrite (Z.geb_leb a b)
  | |- context [?a <? ?b] => destruct (Z.ltb_spec a b)
  | |- context [?a <=? ?b] => destruct (Z.leb_spec a b)
  end.

Lemma hash_func_MAX : hash_func MAX = 100.
Proof. reflexivity. Qed.

Lemma GRID_size_eq : GRID_size = 101%nat.
Proof. reflexivity. Qed.

Lemma clamp_cell_spec v : clamp_cell v = Z.max 0 (Z.min v 100).
Proof.
  unfold clamp_cell. rewrite hash_func_MAX.
  destruct (Z.ltb_spec v 0); zcases; lia.
Qed.

Lemma clamp_cell_range v : 0 <= clamp_cell v <= 100.
Proof. rewrite clamp_cell_spec. lia. Qed.

Lemma clamp_cell_id v : 0 <= v <= 100 -> clamp_cell v = v.
Proof. rewrite clamp_cell_spec. lia. Qed.

Lemma clamp_cell_idem v : clamp_cell (clamp_cell v) = clamp_cell v.
Proof. apply clamp_cell_id, clamp_cell_range. Qed.

Lemma grid_wf_spec g :
  grid_wf g = true <->
  length g = GRID_size /\ forall i col, g !! i = Some col -> length col = GRID_size.
Proof.
  unfold grid_wf. rewrite andb_true_iff, Nat.eqb_eq, forallb_forall.
  split; intros [Hl Hc]; (split; [done|]).
  - intros i col Hi. apply Nat.eqb_eq, Hc, list_elem_of_In.
    eapply list_elem_of_lookup_2, Hi.
  - intros col Hin. apply Nat.eqb_eq.
    apply list_elem_of_In, list_elem_of_lookup_1 in Hin as [i Hi]. eauto.
Qed.

Lemma grid_wf_init : grid_wf GRID_init = true.
Proof. reflexivity. Qed.

Lemma grid_at_in_range g x y c :
  grid_wf g = true -> grid_at g x y = Some c -> 0 <= x <= 100 /\ 0 <= y <= 100.
Proof.
  rewrite grid_wf_spec, GRID_size_eq. intros [Hl Hc]. unfold grid_at.
  destruct (Z.ltb_spec x 0); [done|]. destruct (Z.ltb_spec y 0); [done|]. cbn [orb].
  destruct (g !! Z.to_nat x) as [col|] eqn:Hx; [|done].
  intros Hy. pose proof (Hc _ _ Hx) as Hlc.
  apply lookup_lt_Some in Hx, Hy. lia.
Qed.

Lemma grid_at_is_Some g x y :
  grid_wf g = true -> 0 <= x <= 100 -> 0 <= y <= 100 ->
  exists c, grid_at g x y = Some c.
Proof.
  rewrite grid_wf_spec, GRID_size_eq. intros [Hl Hc] Hx Hy. unfold grid_at.
  zcases; try lia. cbn [orb].
  destruct (lookup_lt_is_Some_2 g (Z.to_nat x)) as [col Hcol]; [lia|].
  rewrite Hcol. apply lookup_lt_is_Some_2. rewrite (Hc _ _ Hcol). lia.
Qed.

Lemma grid_at_set_eq g x y c :
  grid_wf g = true -> 0 <= x <= 100 -> 0 <= y <= 100 ->
  grid_at (grid_set g x y c) x y = Some c.
Proof.
  rewrite grid_wf_spec, GRID_size_eq. intros [Hl Hc] Hx Hy.
  unfold grid_at, grid_set. zcases; try lia. cbn [orb].
  destruct (lookup_lt_is_Some_2 g (Z.to_nat x)) as [col Hcol]; [lia|].
  rewrite Hcol, list_lookup_insert_eq by lia.
  apply list_lookup_insert_eq. rewrite (Hc _ _ Hcol). lia.
Qed.

Lemma grid_at_set_ne g x y c i j :
  0 <= x -> 0 <= y -> (i, j) <> (x, y) ->
  grid_at (grid_set g x y c) i j = grid_at g i j.
Proof.
  intros Hx Hy Hne. unfold grid_at, grid_set.
  destruct (Z.ltb_spec i 0); [done|]. destruct (Z.ltb_spec j 0); [done|]. cbn [orb].
  destruct (g !! Z.to_nat x) as [col|] eqn:Hcol; [|done].
  destruct (decide (Z.to_nat i = Z.to_nat x)) as [E|E].
  - rewrite E, list_lookup_insert_eq, Hcol by (eapply lookup_lt_Some, Hcol).
    apply list_lookup_insert_ne. intros E'. apply Hne. f_equal; lia.
  - rewrite list_lookup_insert_ne by done. reflexivity.
Qed.

Lemma grid_wf_set g x y c : grid_wf g = true -> grid_wf (grid_set g x y c) = true.
Proof.
  rewrite !grid_wf_spec. intros [Hl Hc]. unfold grid_set.
  destruct (g !! Z.to_nat x) as [col|] eqn:Hcol; [|done].
  split; [by rewrite length_insert|].
  intros i col' Hi.
  destruct (decide (i = Z.to_nat x)) as [->|E].
  - rewrite list_lookup_insert_eq in Hi by (eapply lookup_lt_Some, Hcol).
    injection Hi as <-. rewrite length_insert. eauto.
  - rewrite list_lookup_insert_ne in Hi by done. eauto.
Qed.

Lemma grid_at_init x y :
  0 <= x <= 100 -> 0 <= y <= 100 -> grid_at GRID_init x y = Some [].
Proof.
  intros Hx Hy. unfold grid_at, GRID_init. zcases; try lia. cbn [orb].
  rewrite GRID_size_eq, lookup_replicate_2 by lia.
  apply lookup_replicate_2. lia.
Qed.

Lemma cell_points_init xy : cell_points GRID_init xy = [].
Proof.
  unfold cell_points. destruct (grid_at GRID_init xy.1 xy.2) as [c|] eqn:E; [|done].
  pose proof (grid_at_in_range _ _ _ _ grid_wf_init E) as [Hx Hy].
  rewrite grid_at_init in E by done. by injection E as <-.
Qed.

Lemma cell_points_Some g x y c : grid_at g x y = Some c -> cell_points g (x, y) = c.
Proof. unfold cell_points. cbn [fst snd]. by intros ->. Qed.

Lemma points_of_cons g xy t : points_of g (xy :: t) = cell_points g xy ++ points_of g t.
Proof. reflexivity. Qed.


Lemma points_of_init t : points_of GRID_init t = [].
Proof.
  induction t as [|xy t IH]; [done|].
  by rewrite points_of_cons, cell_points_init, IH.
Qed.

(** * The monad *)

Lemma prepend_nil {A} (r : result (A * Grid * list (Z * Z))) : prepend [] r = r.
Proof. by destruct r as [[[a g] t]| | |]. Qed.

Lemma prepend_prepend {A} t1 t2 (r : result (A * Grid * list (Z * Z))) :
  prepend t1 (prepend t2 r) = prepend (t1 ++ t2) r.
Proof. destruct r as [[[a g] t]| | |]; cbn; by rewrite ?app_assoc. Qed.

Lemma bind_step {A B} (m : M A) (f : A -> M B) g a g1 t1 :
  m g = Ok (a, g1, t1) -> (let! x := m in f x) g = prepend t1 (f a g1).
Proof. intros Hm. unfold bind. by rewrite Hm. Qed.

Lemma bind_Ok {A B} (m : M A) (f : A -> M B) g a g1 t1 b g2 t2 :
  m g = Ok (a, g1, t1) -> f a g1 = Ok (b, g2, t2) ->
  (let! x := m in f x) g = Ok (b, g2, t1 ++ t2).
Proof. intros Hm Hf. rewrite (bind_step _ _ _ _ _ _ Hm), Hf. reflexivity. Qed.

Lemma int_add_Ok a b g : in_int (a + b) = true -> int_add a b g = Ok (a + b, g, []).
Proof. intros H. unfold int_add. by rewrite H. Qed.

Lemma int_sub_Ok a b g : in_int (a - b) = true -> int_sub a b g = Ok (a - b, g, []).
Proof. intros H. unfold int_sub. by rewrite H. Qed.

(** * insert *)

Lemma insert_eq p :
  insert p = push_back (clamp_cell (hash_func (px p))) (clamp_cell (hash_func (py p))) p.
Proof. reflexivity. Qed.

Lemma insert_Ok p g :
  grid_wf g = true ->
  let x := clamp_cell (hash_func (px p)) in
  let y := clamp_cell (hash_func (py p)) in
  exists a, grid_at g x y = Some a
            /\ insert p g = Ok (tt, grid_set g x y (a ++ [p]), [(x, y)]).
Proof.
  intros Hwf x y.
  destruct (grid_at_is_Some g x y Hwf) as [a Ha]; try apply clamp_cell_range.
  exists a. split; [done|]. rewrite insert_eq. unfold push_back. fold x y. by rewrite Ha.
Qed.

Lemma clamp_hash_spec v :
  in_int v = true -> clamp_cell (hash_func v) = spec_cell_index v.
Proof.
  rewrite in_int_spec. intros Hv. rewrite clamp_cell_spec. unfold spec_cell_index.
  change (MAX / DIV) with 100. unfold DIV.
  destruct (Z_lt_le_dec v 0) as [Hneg|Hpos].
  - pose proof (hash_func_neg v ltac:(lia)).
    assert (v / 10 < 0) by (apply Z.div_lt_upper_bound; lia). lia.
  - destruct (Z_lt_le_dec v 2048) as [Hsmall|Hbig].
    + rewrite hash_func_small by lia. reflexivity.
    + destruct (hash_func_nonneg v ltac:(lia)) as [_ Hh]. specialize (Hh Hbig).
      assert (100 <= v / 10) by (apply Z.div_le_lower_bound; lia). lia.
Qed.

(** * find_nearest *)

Section FindNearest.
Context {D : Type} (distance : Point -> Point -> D) (dlt : D -> D -> bool).

Lemma scan_cell_Ok x y reference_ (c : candidate) g cell :
  grid_at g x y = Some cell ->
  scan_cell distance dlt x y reference_ c g
  = Ok (fold_left (visit distance dlt reference_) cell c, g, [(x, y)]).
Proof. intros E. unfold scan_cell, bind, read_cell, ret. by rewrite E. Qed.

Lemma find_nearest_loop_unfold fuel minx reference_ curx maxy miny (c : candidate) :
  find_nearest_loop distance dlt (S fuel) minx reference_ curx maxy miny c
  = if curx >=? minx then
      let! c := scan_cell distance dlt (clamp_cell curx) (clamp_cell maxy) reference_ c in
      let! c := scan_cell distance dlt (clamp_cell curx) (clamp_cell miny) reference_ c in
      let! curx := int_sub (clamp_cell curx) 1 in
      find_nearest_loop distance dlt fuel minx reference_ curx
        (clamp_cell maxy) (clamp_cell miny) c
    else ret c.
Proof. reflexivity. Qed.

Lemma find_nearest_loop_done fuel minx reference_ curx maxy miny (c : candidate) g :
  curx < minx ->
  find_nearest_loop distance dlt fuel minx reference_ curx maxy miny c g = Ok (c, g, []).
Proof.
  intros Hlt. destruct fuel; cbn [find_nearest_loop];
    rewrite Z.geb_leb; destruct (Z.leb_spec minx curx); try lia; reflexivity.
Qed.

Lemma find_nearest_loop_spec reference_ g :
  grid_wf g = true ->
  forall n fuel minx curx maxy miny (c : candidate),
    0 <= minx -> curx <= 100 -> n = Z.to_nat (curx - minx + 1) -> (n <= fuel)%nat ->
    let rows := flat_map (fun x => [(x, clamp_cell maxy); (x, clamp_cell miny)])
                         (countdown curx n) in
    find_nearest_loop distance dlt fuel minx reference_ curx maxy miny c g
    = Ok (fold_left (visit distance dlt reference_) (points_of g rows) c, g, rows).
Proof.
  intros Hwf. induction n as [|n IH];
    intros fuel minx curx maxy miny c Hmin Hcur Hn Hfuel rows.
  - apply find_nearest_loop_done. lia.
  - destruct fuel as [|fuel]; [lia|].
    rewrite find_nearest_loop_unfold, Z.geb_leb.
    destruct (Z.leb_spec minx curx); [|lia].
    rewrite (clamp_cell_id curx) by lia.
    destruct (grid_at_is_Some g curx (clamp_cell maxy) Hwf) as [c1 E1];
      [lia|apply clamp_cell_range|].
    destruct (grid_at_is_Some g curx (clamp_cell miny) Hwf) as [c2 E2];
      [lia|apply clamp_cell_range|].
    subst rows. cbn [countdown flat_map].
    erewrite bind_Ok; [| by apply scan_cell_Ok |].
    2:{ erewrite bind_Ok; [| by apply scan_cell_Ok |].
        2:{ erewrite bind_Ok; [| apply int_sub_Ok |].
            - reflexivity.
            - apply in_int_spec. unfold INT_MIN, INT_MAX. lia.
            - apply IH; lia. }
        reflexivity. }
    rewrite !clamp_cell_idem. cbn [app].
    rewrite !points_of_cons, (cell_points_Some _ _ _ _ E1), (cell_points_Some _ _ _ _ E2).
    rewrite !fold_left_app. reflexivity.
Qed.

Lemma find_nearest_spec maxx maxy minx miny reference_ (c : candidate) g :
  grid_wf g = true ->
  find_nearest distance dlt maxx maxy minx miny reference_ c g
  = Ok (fold_left (visit distance dlt reference_)
          (points_of g (ring_rows maxx maxy minx miny)) c,
        g, ring_rows maxx maxy minx miny).
Proof.
  intros Hwf. unfold find_nearest, ring_rows. rewrite hash_func_MAX.
  set (minx' := if minx <? 0 then 0 else minx).
  set (maxx' := if maxx >? 100 then 100 else maxx).
  assert (Emin : Z.max minx 0 = minx') by (subst minx'; zcases; lia).
  assert (Emax : Z.min maxx 100 = maxx') by (subst maxx'; zcases; lia).
  rewrite Emin, Emax.
  assert (Ey1 : clamp_cell (if maxy >? 100 then 100 else maxy) = clamp_cell maxy)
    by (rewrite !clamp_cell_spec; zcases; lia).
  assert (Ey2 : clamp_cell (if miny <? 0 then 0 else miny) = clamp_cell miny)
    by (rewrite !clamp_cell_spec; zcases; lia).
  rewrite <- Ey1, <- Ey2.
  apply find_nearest_loop_spec; try done; lia.
Qed.
End FindNearest.

(** * nearest_neighbor *)

Lemma exhausted_spec w : exhausted w = true <-> rings_needed w <= 0.
Proof.
  unfold exhausted, rings_needed. rewrite hash_func_MAX.
  rewrite !andb_true_iff, !Z.gtb_ltb, !Z.ltb_lt. lia.
Qed.

Lemma exhausted_false w : exhausted w = false <-> 0 < rings_needed w.
Proof.
  pose proof (exhausted_spec w). destruct (exhausted w); split; intros; try done; try lia.
Qed.

Lemma rings_needed_grow w : rings_needed (grow w) = rings_needed w - 1.
Proof. unfold rings_needed, grow. cbn. rewrite hash_func_MAX. lia. Qed.

Lemma window_safe_grow w : 0 < rings_needed w -> window_safe w -> window_safe (grow w).
Proof.
  unfold window_safe. rewrite rings_needed_grow. cbn. lia.
Qed.

Lemma window_safe_step w :
  0 < rings_needed w -> window_safe w ->
  in_int (curmaxx w + 1) = true /\ in_int (curmaxy w + 1) = true
  /\ in_int (curminx w - 1) = true /\ in_int (curminy w - 1) = true.
Proof.
  unfold window_safe. rewrite !in_int_spec. cbn. lia.
Qed.

Lemma home_window_safe reference :
  int_point reference = true -> window_safe (home_window reference).
Proof.
  unfold int_point. rewrite andb_true_iff, !in_int_spec. intros [Hx Hy].
  assert (Hh : forall v, INT_MIN <= v <= INT_MAX -> - 2 ^ 29 < hash_func v < 2 ^ 29).
  { intros v Hv. destruct (Z_lt_le_dec v 0).
    - pose proof (hash_func_neg v ltac:(lia)). lia.
    - pose proof (hash_func_nonneg v ltac:(lia)). lia. }
  pose proof (Hh _ Hx). pose proof (Hh _ Hy).
  unfold window_safe, rings_needed, home_window. cbn.
  rewrite hash_func_MAX. unfold INT_MIN, INT_MAX in *.
  change (2 ^ 29) with 536870912 in *. change (2 ^ 31) with 2147483648 in *. lia.
Qed.

Section NearestNeighbor.
Context {D : Type} (distance : Point -> Point -> D) (dlt : D -> D -> bool) (DBL_MAX : D).

Abbreviation find_nearest' := (find_nearest distance dlt).
Abbreviation loop := (nearest_neighbor_loop distance dlt).
Abbreviation step_trace' := (step_trace distance dlt).
Abbreviation after_step' := (after_step distance dlt).

Lemma nearest_neighbor_eq reference :
  nearest_neighbor distance dlt DBL_MAX reference
  = loop (S (Z.to_nat (rings_needed (home_window reference)))) reference
      (home_window reference) (no_candidate DBL_MAX).
Proof. reflexivity. Qed.

Lemma loop_unfold fuel reference w (c : candidate) :
  loop (S fuel) reference w c
  = if negb (fstset_ c) then
      if exhausted w then ret (mkPoint (-1) (-1))
      else
        let! c := find_nearest' (curmaxx w) (curmaxy w) (curminx w) (curminy w)
                    reference c in
        let! maxx := int_add (curmaxx w) 1 in
        let! maxy := int_add (curmaxy w) 1 in
        let! minx := int_sub (curminx w) 1 in
        let! miny := int_sub (curminy w) 1 in
        let! c := (if fstset_ c
                   then find_nearest' maxx maxy minx miny reference c
                   else ret c) in
        loop fuel reference (mkWindow maxx maxy minx miny) c
    else ret (nearest_ c).
Proof. reflexivity. Qed.

Lemma loop_found fuel reference w (c : candidate) g :
  fstset_ c = true -> loop fuel reference w c g = Ok (nearest_ c, g, []).
Proof. intros Hc. destruct fuel; cbn [nearest_neighbor_loop]; by rewrite Hc. Qed.

Lemma loop_exhausted fuel reference w (c : candidate) g :
  fstset_ c = false -> exhausted w = true ->
  loop (S fuel) reference w c g = Ok (mkPoint (-1) (-1), g, []).
Proof. intros Hc Hw. rewrite loop_unfold, Hc, Hw. reflexivity. Qed.

Lemma loop_step fuel reference w (c : candidate) g :
  grid_wf g = true -> fstset_ c = false -> exhausted w = false ->
  in_int (curmaxx w + 1) = true -> in_int (curmaxy w + 1) = true ->
  in_int (curminx w - 1) = true -> in_int (curminy w - 1) = true ->
  loop (S fuel) reference w c g
  = prepend (step_trace' reference g w c)
      (loop fuel reference (grow w) (after_step' reference g w c) g).
Proof.
  intros Hwf Hc Hw I1 I2 I3 I4.
  rewrite loop_unfold, Hc, Hw. cbn [negb].
  rewrite (bind_step _ _ _ _ _ _ (find_nearest_spec distance dlt _ _ _ _ reference c g Hwf)).
  rewrite (bind_step _ _ _ _ _ _ (int_add_Ok _ _ g I1)), prepend_nil.
  rewrite (bind_step _ _ _ _ _ _ (int_add_Ok _ _ g I2)), prepend_nil.
  rewrite (bind_step _ _ _ _ _ _ (int_sub_Ok _ _ g I3)), prepend_nil.
  rewrite (bind_step _ _ _ _ _ _ (int_sub_Ok _ _ g I4)), prepend_nil.
  unfold step_trace, after_step. fold (ring_of w).
  fold (scan_ring distance dlt reference g w c).
  destruct (fstset_ (scan_ring distance dlt reference g w c)) eqn:Hf.
  - rewrite (bind_step _ _ _ _ _ _ (find_nearest_spec distance dlt _ _ _ _ reference _ g Hwf)).
    rewrite prepend_prepend. reflexivity.
  - unfold bind at 1, ret at 1. rewrite prepend_nil, app_nil_r. reflexivity.
Qed.

Lemma loop_run reference g :
  grid_wf g = true ->
  forall n w (c : candidate),
    window_safe w -> Z.to_nat (rings_needed w) = n ->
    exists p t,
      (forall fuel, (n < fuel)%nat -> loop fuel reference w c g = Ok (p, g, t))
      /\ (fstset_ c = false -> (forall t', points_of g t' = []) -> p = mkPoint (-1) (-1)).
Proof.
  intros Hwf. induction n as [|n IH]; intros w c Hs Hn.
  - destruct (fstset_ c) eqn:Hc.
    + exists (nearest_ c), []. split; [|done]. intros fuel _. by apply loop_found.
    + exists (mkPoint (-1) (-1)), []. split; [|done].
      intros [|fuel] Hf; [lia|]. apply loop_exhausted; [done|].
      apply exhausted_spec. lia.
  - destruct (fstset_ c) eqn:Hc.
    + exists (nearest_ c), []. split; [|done]. intros fuel _. by apply loop_found.
    + assert (Hr : 0 < rings_needed w) by lia.
      destruct (window_safe_step w Hr Hs) as (I1 & I2 & I3 & I4).
      destruct (IH (grow w) (after_step' reference g w c)) as (p & t & Hrun & Hempty).
      { by apply window_safe_grow. }
      { rewrite rings_needed_grow. lia. }
      exists p, (step_trace' reference g w c ++ t). split.
      * intros [|fuel] Hf; [lia|].
        rewrite loop_step by (try done; by apply exhausted_false).
        rewrite Hrun by lia. reflexivity.
      * intros _ He. apply Hempty; [|done].
        unfold after_step, scan_ring. rewrite !He. cbn. by rewrite Hc.
Qed.

(** On the empty grid the bound of [loop_run] is exact: with the flag unset, the loop
    is still running after [rings_needed] iterations. *)
Lemma loop_empty_grid_running reference :
  forall fuel w (c : candidate),
    fstset_ c = false -> window_safe w -> Z.of_nat fuel <= rings_needed w ->
    loop fuel reference w c GRID_init = OutOfFuel.
Proof.
  induction fuel as [|fuel IH]; intros w c Hc Hs Hf.
  - cbn [nearest_neighbor_loop]. by rewrite Hc.
  - assert (Hr : 0 < rings_needed w) by lia.
    destruct (window_safe_step w Hr Hs) as (I1 & I2 & I3 & I4).
    rewrite loop_step by (try done; try apply grid_wf_init; by apply exhausted_false).
    rewrite IH; [done| |by apply window_safe_grow|rewrite rings_needed_grow; lia].
    unfold after_step, scan_ring. rewrite !points_of_init. cbn. by rewrite Hc.
Qed.
End NearestNeighbor.

(** * Which cells a scan reads *)

Lemma elem_of_countdown x hi n : x ∈ countdown hi n <-> hi - Z.of_nat n < x <= hi.
Proof.
  revert hi. induction n as [|n IH]; intros hi; cbn [countdown].
  - rewrite elem_of_nil. lia.
  - rewrite elem_of_cons, IH. lia.
Qed.

Lemma elem_of_ring_rows x y maxx maxy minx miny :
  (x, y) ∈ ring_rows maxx maxy minx miny <->
  Z.max minx 0 <= x <= Z.min maxx (hash_func MAX)
  /\ (y = clamp_cell maxy \/ y = clamp_cell miny).
Proof.
  unfold ring_rows. rewrite list_elem_of_In, in_flat_map. split.
  - intros (x' & Hx' & Hin). apply list_elem_of_In, elem_of_countdown in Hx'.
    cbn [In] in Hin. destruct Hin as [E|[E|[]]]; injection E as <- <-; split; auto; lia.
  - intros [Hx Hy]. exists x. split.
    + apply list_elem_of_In, elem_of_countdown. lia.
    + cbn [In]. destruct Hy as [->| ->]; auto.
Qed.

Lemma ring_rows_outside_x maxx maxy minx miny :
  maxx < 0 \/ hash_func MAX < minx -> ring_rows maxx maxy minx miny = [].
Proof.
  intros H. unfold ring_rows.
  replace (Z.to_nat _) with 0%nat; [reflexivity|]. rewrite hash_func_MAX in *. lia.
Qed.

(** * The candidate kept by a scan *)

Section Candidate.
Context {D : Type} (distance : Point -> Point -> D) (dlt : D -> D -> bool).
Hypothesis dlt_irrefl : forall d, dlt d d = false.
Hypothesis dlt_trans : forall a b c, dlt a b = true -> dlt b c = true -> dlt a c = true.

Abbreviation visit' := (visit distance dlt).

Lemma visit_best reference seen (c : candidate) p :
  (fstset_ c = false /\ seen = []) \/ best_of distance dlt reference seen c ->
  best_of distance dlt reference (seen ++ [p]) (visit' reference c p).
Proof.
  unfold best_of, visit. intros [[Hc ->]|(Hc & Hin & Hd & Hmin)]; rewrite Hc; cbn.
  - repeat split; [apply list_elem_of_singleton; done|].
    intros q Hq. apply list_elem_of_singleton in Hq as ->. apply dlt_irrefl.
  - destruct (dlt (distance p reference) (dist_ c)) eqn:Hlt; cbn.
    + repeat split; [apply elem_of_app; right; by apply list_elem_of_singleton|].
      intros q Hq. apply elem_of_app in Hq as [Hq|Hq].
      * destruct (dlt (distance q reference) (distance p reference)) eqn:Hq'; [|done].
        rewrite <- (Hmin q Hq). symmetry. eapply dlt_trans; eauto.
      * apply list_elem_of_singleton in Hq as ->. apply dlt_irrefl.
    + repeat split; [done|apply elem_of_app; by left|done|].
      intros q Hq. apply elem_of_app in Hq as [Hq|Hq]; [by apply Hmin|].
      by apply list_elem_of_singleton in Hq as ->.
Qed.

Lemma fold_visit_best reference l : forall seen (c : candidate),
  best_of distance dlt reference seen c ->
  best_of distance dlt reference (seen ++ l) (fold_left (visit' reference) l c).
Proof.
  induction l as [|p l IH]; intros seen c Hc; cbn [fold_left].
  - by rewrite app_nil_r.
  - replace (seen ++ p :: l) with ((seen ++ [p]) ++ l) by (by rewrite <- app_assoc).
    apply IH, visit_best. by right.
Qed.

Lemma fold_visit_first reference l (c : candidate) :
  fstset_ c = false ->
  fstset_ (fold_left (visit' reference) l c) = true ->
  best_of distance dlt reference l (fold_left (visit' reference) l c).
Proof.
  intros Hc Hf. destruct l as [|p l]; cbn [fold_left] in *; [congruence|].
  apply (fold_visit_best reference l [p]).
  apply (visit_best reference [] c p). by left.
Qed.
End Candidate.

(** * insert: placement and frame *)

Lemma insert_all_spec ps : forall g,
  grid_wf g = true -> forallb int_point ps = true ->
  exists g' t,
    insert_all ps g = Ok (tt, g', t)
    /\ grid_wf g' = true
    /\ forall i j, grid_at g' i j
                   = (fun a => a ++ filter (fun p => cell_of p = (i, j)) ps) <$> grid_at g i j.
Proof.
  induction ps as [|p ps IH]; intros g Hwf Hint.
  - exists g, []. split; [done|]. split; [done|].
    intros i j. destruct (grid_at g i j); cbn; by rewrite ?app_nil_r.
  - cbn [forallb] in Hint. apply andb_true_iff in Hint as [Hp Hps].
    unfold int_point in Hp. apply andb_true_iff in Hp as [Hpx Hpy].
    destruct (insert_Ok p g Hwf) as (a & Ha & Hins).
    rewrite !clamp_hash_spec in Ha, Hins by done. fold (cell_of p) in Hins.
    set (x := spec_cell_index (px p)) in *. set (y := spec_cell_index (py p)) in *.
    assert (Hx : 0 <= x <= 100)
      by (subst x; unfold spec_cell_index; change (MAX / DIV) with 100; lia).
    assert (Hy : 0 <= y <= 100)
      by (subst y; unfold spec_cell_index; change (MAX / DIV) with 100; lia).
    destruct (IH (grid_set g x y (a ++ [p]))) as (g' & t & Hrun & Hwf' & Hcells);
      [by apply grid_wf_set|done|].
    exists g', ((x, y) :: t). split; [|split; [done|]].
    + cbn [insert_all]. by rewrite (bind_Ok _ _ _ _ _ _ _ _ _ Hins Hrun).
    + intros i j. rewrite Hcells.
      destruct (decide (cell_of p = (i, j))) as [E|E].
      * rewrite filter_cons_True by done.
        unfold cell_of in E. fold x y in E. injection E as <- <-.
        rewrite grid_at_set_eq, Ha by done. cbn. by rewrite <- app_assoc.
      * rewrite filter_cons_False by done.
        rewrite grid_at_set_ne; [done|lia|lia|]. intros E'. apply E. by rewrite E'.
Qed.

(** C5. After any sequence of insertions into the grid as constructed, each cell (i, j)
    holds exactly the inserted points whose coordinates give that cell under
    clamp (floor (x / DIV), 0, MAX / DIV) on both axes, in insertion order; a coordinate
    below 0 gives index 0 and a coordinate above MAX gives the last index MAX / DIV. *)
Theorem insert_placement ps :
  forallb int_point ps = true ->
  exists g t,
    insert_all ps GRID_init = Ok (tt, g, t)
    /\ (forall i j, 0 <= i <= MAX / DIV -> 0 <= j <= MAX / DIV ->
          grid_at g i j = Some (filter (fun p => cell_of p = (i, j)) ps))
    /\ (forall p, p ∈ ps ->
          0 <= (cell_of p).1 <= MAX / DIV /\ 0 <= (cell_of p).2 <= MAX / DIV
          /\ (px p < 0 -> (cell_of p).1 = 0) /\ (MAX < px p -> (cell_of p).1 = MAX / DIV)
          /\ (py p < 0 -> (cell_of p).2 = 0) /\ (MAX < py p -> (cell_of p).2 = MAX / DIV)).
Proof.
  intros Hint.
  destruct (insert_all_spec ps GRID_init grid_wf_init Hint) as (g & t & Hrun & _ & Hcells).
  exists g, t. split; [done|]. split.
  - change (MAX / DIV) with 100. intros i j Hi Hj.
    by rewrite Hcells, grid_at_init.
  - intros p _. unfold cell_of, spec_cell_index. cbn [fst snd].
    change (MAX / DIV) with 100. unfold MAX, DIV.
    assert (Hneg : forall v, v < 0 -> v / 10 < 0)
      by (intros v Hv; apply Z.div_lt_upper_bound; lia).
    assert (Hbig : forall v, 1000 < v -> 100 <= v / 10)
      by (intros v Hv; apply Z.div_le_lower_bound; lia).
    repeat split; try lia.
    + intros Hv. specialize (Hneg _ Hv). lia.
    + intros Hv. specialize (Hbig _ Hv). lia.
    + intros Hv. specialize (Hneg _ Hv). lia.
    + intros Hv. specialize (Hbig _ Hv). lia.
Qed.

(** C8. insert succeeds for every point on every well-formed grid: it reads one cell
    (x, y) of the grid, that cell gains the point at its end and so grows by exactly one
    element, every other cell keeps its content, and inserting the same point again
    stores a second copy of it. *)
Theorem insert_grows_one_cell p g :
  grid_wf g = true ->
  exists x y a g',
    0 <= x <= MAX / DIV /\ 0 <= y <= MAX / DIV
    /\ grid_at g x y = Some a
    /\ insert p g = Ok (tt, g', [(x, y)])
    /\ grid_at g' x y = Some (a ++ [p])
    /\ length (a ++ [p]) = S (length a)
    /\ (forall i j, (i, j) <> (x, y) -> grid_at g' i j = grid_at g i j)
    /\ grid_wf g' = true
    /\ exists g'', insert p g' = Ok (tt, g'', [(x, y)])
                   /\ grid_at g'' x y = Some (a ++ [p; p]).
Proof.
  intros Hwf. destruct (insert_Ok p g Hwf) as (a & Ha & Hins).
  set (x := clamp_cell (hash_func (px p))) in *.
  set (y := clamp_cell (hash_func (py p))) in *.
  pose proof (clamp_cell_range (hash_func (px p))) as Hx. fold x in Hx.
  pose proof (clamp_cell_range (hash_func (py p))) as Hy. fold y in Hy.
  set (g' := grid_set g x y (a ++ [p])) in *.
  assert (Hwf' : grid_wf g' = true) by (by apply grid_wf_set).
  assert (Hat : grid_at g' x y = Some (a ++ [p])) by (by apply grid_at_set_eq).
  exists x, y, a, g'. change (MAX / DIV) with 100.
  repeat (split; [done|]). split; [by rewrite length_app, Nat.add_1_r|].
  split; [intros i j Hne; apply grid_at_set_ne; [lia|lia|done]|].
  split; [done|].
  destruct (insert_Ok p g' Hwf') as (a' & Ha' & Hins'). fold x y in Ha', Hins'.
  rewrite Hat in Ha'. injection Ha' as <-.
  eexists. split; [done|]. rewrite grid_at_set_eq by done. by rewrite <- app_assoc.
Qed.

Section Claims.
Context {D : Type} (distance : Point -> Point -> D) (dlt : D -> D -> bool) (DBL_MAX : D).

Abbreviation find_nearest' := (find_nearest distance dlt).
Abbreviation loop := (nearest_neighbor_loop distance dlt).
Abbreviation nearest_neighbor' := (nearest_neighbor distance dlt DBL_MAX).

(** C2 (amended). find_nearest reads, for every x of the clamped range [max minx 0 ..
    min maxx hash(MAX)] taken downwards, the cell (x, top) and then the cell (x, bottom),
    where top and bottom are maxy and miny clamped into [0, hash(MAX)]; it folds [visit]
    over their points in that order and reads no other cell.  When maxy and miny lie in
    [0, hash(MAX)], top = maxy and bottom = miny: no cell of an intermediate row is
    read then, and the left and right columns of the ring are never scanned. *)
Theorem find_nearest_scans_top_and_bottom_rows
    g maxx maxy minx miny reference_ (c : candidate) :
  grid_wf g = true ->
  let lo := Z.max minx 0 in
  let hi := Z.min maxx (hash_func MAX) in
  let top := clamp_cell maxy in
  let bottom := clamp_cell miny in
  let cells := flat_map (fun x => [(x, top); (x, bottom)])
                        (countdown hi (Z.to_nat (hi - lo + 1))) in
  find_nearest' maxx maxy minx miny reference_ c g
  = Ok (fold_left (visit distance dlt reference_) (points_of g cells) c, g, cells)
  /\ (forall x y, (x, y) ∈ cells <-> lo <= x <= hi /\ (y = top \/ y = bottom))
  /\ (0 <= maxy <= hash_func MAX -> top = maxy)
  /\ (0 <= miny <= hash_func MAX -> bottom = miny).
Proof.
  intros Hwf lo hi top bottom cells. split; [|split; [|split]].
  - by apply find_nearest_spec.
  - intros x y. apply elem_of_ring_rows.
  - rewrite hash_func_MAX. apply clamp_cell_id.
  - rewrite hash_func_MAX. apply clamp_cell_id.
Qed.

(** C3. On the grid as constructed, with no point inserted, nearest_neighbor returns
    the sentinel point (-1,-1) for every reference point with int coordinates. *)
Theorem nearest_neighbor_empty_sentinel reference :
  int_point reference = true ->
  exists t, nearest_neighbor' reference GRID_init = Ok (mkPoint (-1) (-1), GRID_init, t).
Proof.
  intros Hint.
  destruct (loop_run distance dlt reference GRID_init grid_wf_init
              (Z.to_nat (rings_needed (home_window reference)))
              (home_window reference) (no_candidate DBL_MAX))
    as (p & t & Hrun & Hempty); [by apply home_window_safe|done|].
  exists t. rewrite nearest_neighbor_eq, Hrun by lia.
  rewrite Hempty; [done|done|apply points_of_init].
Qed.

(** C4 (amended). nearest_neighbor terminates on every well-formed grid and every
    reference point with int coordinates, without reading outside the grid and without
    int overflow.  Its while loop runs at most [rings_needed + 1] times, where
    [rings_needed] is max (hx, hy, H - hx, H - hy) + 1 for the unclamped home cell
    (hx, hy) of the reference point and H = hash_func(MAX): the bound depends on the
    reference point.  For a reference point with both coordinates in [0, MAX] the loop
    runs at most MAX/DIV + 2 times. *)
Theorem nearest_neighbor_terminates g reference :
  grid_wf g = true -> int_point reference = true ->
  let w := home_window reference in
  let hx := hash_func (get reference 0) in
  let hy := hash_func (get reference 1) in
  exists p t,
    nearest_neighbor' reference g = Ok (p, g, t)
    /\ (forall fuel, (Z.to_nat (rings_needed w) < fuel)%nat ->
          loop fuel reference w (no_candidate DBL_MAX) g = Ok (p, g, t))
    /\ rings_needed w
       = Z.max (Z.max hx hy) (Z.max (hash_func MAX - hx) (hash_func MAX - hy)) + 1
    /\ (0 <= px reference <= MAX -> 0 <= py reference <= MAX ->
        rings_needed w <= MAX / DIV + 1).
Proof.
  intros Hwf Hint w hx hy.
  destruct (loop_run distance dlt reference g Hwf
              (Z.to_nat (rings_needed w)) w (no_candidate DBL_MAX))
    as (p & t & Hrun & _); [by apply home_window_safe|done|].
  exists p, t. split; [|split; [done|split]].
  - rewrite nearest_neighbor_eq. apply Hrun. subst w. lia.
  - subst w hx hy. unfold rings_needed, home_window. cbn. lia.
  - intros Hx Hy. subst w. unfold rings_needed, home_window. cbn.
    unfold MAX in Hx, Hy.
    rewrite hash_func_MAX, !hash_func_small by lia.
    change (MAX / DIV) with 100. unfold DIV.
    assert (0 <= px reference / 10 <= 100)
      by (split; [apply Z.div_pos|apply Z.div_le_upper_bound]; lia).
    assert (0 <= py reference / 10 <= 100)
      by (split; [apply Z.div_pos|apply Z.div_le_upper_bound]; lia).
    lia.
Qed.

(** C6 (amended). If the window lies entirely outside the valid cell range
    [0, hash_func(MAX)] on the x axis (maxx < 0 or minx > hash_func(MAX)), find_nearest
    reads no cell and leaves nearest_, dist_ and fstset_ as they were. *)
Theorem find_nearest_outside_x_empty g maxx maxy minx miny reference_ (c : candidate) :
  grid_wf g = true ->
  maxx < 0 \/ hash_func MAX < minx ->
  find_nearest' maxx maxy minx miny reference_ c g = Ok (c, g, []).
Proof.
  intros Hwf Hout. rewrite find_nearest_spec by done.
  by rewrite ring_rows_outside_x.
Qed.


(** C10. Two consecutive nearest_neighbor calls with the same reference point return
    the same point, and the grid after each call is the grid before it. *)
Theorem nearest_neighbor_repeatable g reference :
  grid_wf g = true -> int_point reference = true ->
  exists p t,
    nearest_neighbor' reference g = Ok (p, g, t)
    /\ (let! p1 := nearest_neighbor' reference in
        let! p2 := nearest_neighbor' reference in
        ret (p1, p2)) g = Ok ((p, p), g, t ++ t).
Proof.
  intros Hwf Hint.
  destruct (loop_run distance dlt reference g Hwf
              (Z.to_nat (rings_needed (home_window reference)))
              (home_window reference) (no_candidate DBL_MAX))
    as (p & t & Hrun & _); [by apply home_window_safe|done|].
  assert (Hcall : nearest_neighbor' reference g = Ok (p, g, t))
    by (rewrite nearest_neighbor_eq; apply Hrun; lia).
  exists p, t. split; [done|].
  rewrite (bind_step _ _ _ _ _ _ Hcall), (bind_step _ _ _ _ _ _ Hcall).
  unfold ret. cbn. by rewrite app_nil_r.
Qed.
(** C9. Every index used on GRID is within the grid: on a well-formed grid, insert of
    any point and find_nearest on any window bounds, reference point and candidate
    never take the out-of-bounds branch, and every cell they read has both indices in
    [0, MAX / DIV]. *)
Theorem grid_access_in_bounds g :
  grid_wf g = true ->
  (forall p, exists g' x y,
      insert p g = Ok (tt, g', [(x, y)])
      /\ 0 <= x <= MAX / DIV /\ 0 <= y <= MAX / DIV)
  /\ (forall maxx maxy minx miny reference_ (c : candidate), exists c' t,
        find_nearest' maxx maxy minx miny reference_ c g = Ok (c', g, t)
        /\ forall x y, (x, y) ∈ t -> 0 <= x <= MAX / DIV /\ 0 <= y <= MAX / DIV).
Proof.
  intros Hwf. change (MAX / DIV) with 100. split.
  - intros p. destruct (insert_Ok p g Hwf) as (a & Ha & Hins).
    eexists _, _, _. split; [exact Hins|]. split; apply clamp_cell_range.
  - intros maxx maxy minx miny reference_ c. eexists _, _.
    split; [by apply find_nearest_spec|].
    intros x y Hin. apply elem_of_ring_rows in Hin as [Hx Hy].
    rewrite hash_func_MAX in Hx.
    pose proof (clamp_cell_range maxy). pose proof (clamp_cell_range miny).
    destruct Hy as [->| ->]; lia.
Qed.
End Claims.

(** * Further properties of hash_func *)

Lemma binary_round_aux_opp s m e l :
  binary_round_aux 24 128 (negb s) m e l = SFopp (binary_round_aux 24 128 s m e l).
Proof.
  unfold binary_round_aux.
  destruct (shr_fexp 24 128 m e l) as [mrs1 e1].
  destruct (shr_fexp 24 128 _ e1 loc_Exact) as [mrs2 e2].
  destruct (shr_m mrs2); [reflexivity| |reflexivity].
  destruct (e2 <=? 128 - 24); reflexivity.
Qed.

Lemma hash_float_opp p :
  hash_float (Z.neg p) = SFopp (hash_float (Z.pos p)).
Proof.
  rewrite hash_float_pos, hash_float_neg, Binary32.float_of_int_DIV.
  unfold binary_round. destruct (shl_align p 0 _) as [mz ez].
  change true with (negb false). rewrite binary_round_aux_opp.
  destruct (binary_round_aux 24 128 false (Z.pos mz) ez loc_Exact) as [s|s| |s m e];
    [by destruct s|by destruct s|reflexivity|].
  unfold SFdiv, SFopp.
  destruct (SFdiv_core_binary 24 128 (Z.pos m) e 10485760 (-20)) as [[mq eq] lq].
  rewrite !xorb_false_r. apply binary_round_aux_opp.
Qed.

Lemma hash_func_opp p :
  Z.pos p < 2 ^ 31 -> hash_func (Z.neg p) = - hash_func (Z.pos p).
Proof.
  intros Hp. unfold hash_func. rewrite hash_float_opp, hash_float_pos.
  destruct (Binary32.hash_float_finite false p Hp) as (m & e & E & Hm & He).
  rewrite E. cbn [SFopp negb int_of_float cond_Zopp].
  destruct (Binary32.trunc_bounds m e Hm) as (T0 & Thi & _); [lia|].
  set (t := if 0 <=? e then Z.pos m * 2 ^ e else Z.pos m / 2 ^ (- e)) in *.
  specialize (Thi 29 ltac:(lia) ltac:(lia)). change (2 ^ 29) with 536870912 in Thi.
  replace (in_int (- t)) with true
    by (symmetry; apply in_int_spec; unfold INT_MIN, INT_MAX; lia).
  replace (in_int t) with true
    by (symmetry; apply in_int_spec; unfold INT_MIN, INT_MAX; lia).
  reflexivity.
Qed.

(** X1. For every int argument the conversion of the binary32 quotient back to int in
    hash_func is defined (the quotient is finite and in the range of int), and the
    result lies strictly between -2^29 and 2^29, with the sign of the argument. *)
Theorem hash_func_conversion_defined coord :
  in_int coord = true ->
  int_of_float (hash_float coord) = Some (hash_func coord)
  /\ - 2 ^ 29 < hash_func coord < 2 ^ 29
  /\ (0 <= coord -> 0 <= hash_func coord)
  /\ (coord <= 0 -> hash_func coord <= 0).
Proof.
  intros Hc. split; [by apply hash_func_defined|].
  apply in_int_spec in Hc.
  destruct (Z_lt_le_dec coord 0) as [Hneg|Hpos].
  - pose proof (hash_func_neg coord ltac:(lia)). lia.
  - pose proof (hash_func_nonneg coord ltac:(lia)) as [H _].
    split; [lia|]. split; [lia|]. intros H0. assert (coord = 0) as -> by lia.
    rewrite hash_func_0. lia.
Qed.

(** X2. On the coordinates from -2047 to 2047, which include all of [0, MAX],
    hash_func is the integer division by DIV that truncates toward zero: the binary32
    rounding does not show, and -9 .. 9 all give index 0. *)
Theorem hash_func_truncating_division coord :
  -2048 < coord < 2048 -> hash_func coord = Z.quot coord DIV.
Proof.
  intros Hc. destruct coord as [|p|p].
  - reflexivity.
  - rewrite hash_func_small by lia. symmetry. apply Z.quot_div_nonneg; [lia|done].
  - rewrite hash_func_opp by lia. rewrite hash_func_small by lia.
    change (Z.neg p) with (- Z.pos p). rewrite Z.quot_opp_l by done.
    f_equal. symmetry. apply Z.quot_div_nonneg; [lia|done].
Qed.

(** X3. hash_func is odd on the range of int: a coordinate and its negation give
    opposite indices. *)
Theorem hash_func_odd coord :
  - INT_MAX <= coord <= INT_MAX -> hash_func (- coord) = - hash_func coord.
Proof.
  unfold INT_MAX. intros Hc. destruct coord as [|p|p].
  - reflexivity.
  - change (- Z.pos p) with (Z.neg p). apply hash_func_opp. lia.
  - change (- Z.neg p) with (Z.pos p). rewrite hash_func_opp by lia. lia.
Qed.

(** * Further properties of find_nearest and nearest_neighbor *)

Lemma Ok_inj {A} (a a' : A) (g g' : Grid) (t t' : list (Z * Z)) :
  Ok (a, g, t) = Ok (a', g', t') -> a = a' /\ g = g' /\ t = t'.
Proof. intros H. injection H as -> -> ->. done. Qed.

Lemma points_of_stored g t p : p ∈ points_of g t -> stored g p.
Proof.
  unfold points_of. rewrite list_elem_of_In, in_flat_map.
  intros ([x y] & _ & Hin). unfold cell_points in Hin. cbn [fst snd] in Hin.
  destruct (grid_at g x y) as [cell|] eqn:E; [|done].
  exists x, y, cell. split; [done|]. by apply list_elem_of_In.
Qed.

Lemma grow_n_grow n w : grow_n n (grow w) = grow (grow_n n w).
Proof. revert w. induction n as [|n IH]; intros w; [done|]. cbn [grow_n]. by rewrite IH. Qed.

Lemma grow_n_eq n w :
  grow_n n w = mkWindow (curmaxx w + Z.of_nat n) (curmaxy w + Z.of_nat n)
                        (curminx w - Z.of_nat n) (curminy w - Z.of_nat n).
Proof.
  revert w. induction n as [|n IH]; intros w.
  - destruct w. cbn. f_equal; lia.
  - cbn [grow_n]. rewrite IH. unfold grow. cbn [curmaxx curmaxy curminx curminy].
    f_equal; lia.
Qed.

Lemma elem_of_rings_trace xy n w :
  xy ∈ rings_trace n w <-> exists j, (j < n)%nat /\ xy ∈ ring_of (grow_n j w).
Proof.
  revert w. induction n as [|n IH]; intros w; cbn [rings_trace].
  - rewrite elem_of_nil. split; [done|]. intros (j & Hj & _). lia.
  - rewrite elem_of_app, IH. split.
    + intros [H|(j & Hj & H)]; [exists 0%nat|exists (S j)]; (split; [lia|done]).
    + intros ([|j] & Hj & H); [by left|]. right. exists j. split; [lia|done].
Qed.

Section Search.
Context {D : Type} (distance : Point -> Point -> D) (dlt : D -> D -> bool) (DBL_MAX : D).

Abbreviation visit' := (visit distance dlt).
Abbreviation find_nearest' := (find_nearest distance dlt).
Abbreviation loop := (nearest_neighbor_loop distance dlt).
Abbreviation nearest_neighbor' := (nearest_neighbor distance dlt DBL_MAX).
Abbreviation scan_ring' := (scan_ring distance dlt).

Lemma visit_flag reference_ (c : candidate) i : fstset_ (visit' reference_ c i) = true.
Proof.
  unfold visit. destruct (fstset_ c) eqn:Hc; cbn; [|done].
  destruct (dlt _ _); cbn; done.
Qed.

Lemma fold_visit_flag reference_ l (c : candidate) :
  fstset_ (fold_left (visit' reference_) l c)
  = fstset_ c || match l with [] => false | _ => true end.
Proof.
  revert c. induction l as [|p l IH]; intros c; cbn [fold_left].
  - by rewrite orb_false_r.
  - rewrite IH, visit_flag. by rewrite orb_true_r.
Qed.

Lemma fold_visit_from reference_ l : forall (c : candidate),
  let c' := fold_left (visit' reference_) l c in
  nearest_ c' ∈ l \/ (c' = c).
Proof.
  induction l as [|p l IH]; intros c; cbn [fold_left]; [by right|].
  destruct (IH (visit' reference_ c p)) as [H|H].
  - left. apply elem_of_cons. by right.
  - cbn zeta in H. rewrite H. unfold visit.
    destruct (fstset_ c); cbn; [|left; apply elem_of_cons; by left].
    destruct (dlt _ _); [left; apply elem_of_cons; by left|by right].
Qed.

Lemma fold_visit_unset reference_ l (c1 c2 : candidate) :
  fstset_ c1 = false -> fstset_ c2 = false -> l <> [] ->
  fold_left (visit' reference_) l c1 = fold_left (visit' reference_) l c2.
Proof.
  intros H1 H2 Hl. destruct l as [|p l]; [done|]. cbn [fold_left].
  unfold visit at 2 4. by rewrite H1, H2.
Qed.

Lemma loop_skip fuel reference w (c : candidate) g :
  grid_wf g = true -> fstset_ c = false -> window_safe w -> 0 < rings_needed w ->
  points_of g (ring_of w) = [] ->
  loop (S fuel) reference w c g = prepend (ring_of w) (loop fuel reference (grow w) c g).
Proof.
  intros Hwf Hc Hs Hr He.
  destruct (window_safe_step w Hr Hs) as (I1 & I2 & I3 & I4).
  assert (Hx : exhausted w = false) by (apply exhausted_false; exact Hr).
  rewrite (loop_step distance dlt fuel reference w c g Hwf Hc Hx I1 I2 I3 I4).
  unfold step_trace, after_step, scan_ring. rewrite He. cbn [fold_left].
  rewrite Hc, app_nil_r. reflexivity.
Qed.

Lemma loop_hit fuel reference w (c : candidate) g :
  grid_wf g = true -> fstset_ c = false -> window_safe w -> 0 < rings_needed w ->
  points_of g (ring_of w) <> [] ->
  loop (S fuel) reference w c g
  = Ok (nearest_ (scan_ring' reference g (grow w) (scan_ring' reference g w c)),
        g, ring_of w ++ ring_of (grow w)).
Proof.
  intros Hwf Hc Hs Hr He.
  destruct (window_safe_step w Hr Hs) as (I1 & I2 & I3 & I4).
  assert (Hx : exhausted w = false) by (apply exhausted_false; exact Hr).
  rewrite (loop_step distance dlt fuel reference w c g Hwf Hc Hx I1 I2 I3 I4).
  assert (Hf : fstset_ (scan_ring' reference g w c) = true).
  { unfold scan_ring. rewrite fold_visit_flag, Hc.
    destruct (points_of g (ring_of w)); [congruence|reflexivity]. }
  unfold step_trace, after_step. rewrite Hf.
  rewrite loop_found.
  - cbn [prepend]. rewrite app_nil_r. reflexivity.
  - unfold scan_ring at 1. rewrite fold_visit_flag, Hf. reflexivity.
Qed.

Lemma loop_all_empty reference g :
  grid_wf g = true ->
  forall n w (c : candidate),
    fstset_ c = false -> window_safe w -> Z.to_nat (rings_needed w) = n ->
    (forall j, (j < n)%nat -> points_of g (ring_of (grow_n j w)) = []) ->
    forall fuel, (n < fuel)%nat ->
      loop fuel reference w c g = Ok (mkPoint (-1) (-1), g, rings_trace n w).
Proof.
  intros Hwf. induction n as [|n IH]; intros w c Hc Hs Hn He [|fuel] Hf; try lia.
  - apply loop_exhausted; [exact Hc|]. apply exhausted_spec. lia.
  - assert (Hr : 0 < rings_needed w) by lia.
    rewrite (loop_skip fuel reference w c g Hwf Hc Hs Hr (He 0%nat ltac:(lia))).
    assert (Hs' : window_safe (grow w)) by (apply window_safe_grow; assumption).
    assert (Hn' : Z.to_nat (rings_needed (grow w)) = n)
      by (rewrite rings_needed_grow; lia).
    assert (He' : forall j, (j < n)%nat -> points_of g (ring_of (grow_n j (grow w))) = [])
      by (intros j Hj; apply (He (S j)); lia).
    rewrite (IH (grow w) c Hc Hs' Hn' He' fuel ltac:(lia)). reflexivity.
Qed.

Lemma loop_first_hit reference g :
  grid_wf g = true ->
  forall n w (c : candidate),
    fstset_ c = false -> window_safe w -> Z.of_nat n < rings_needed w ->
    (forall j, (j < n)%nat -> points_of g (ring_of (grow_n j w)) = []) ->
    points_of g (ring_of (grow_n n w)) <> [] ->
    forall fuel, (n < fuel)%nat ->
      loop fuel reference w c g
      = Ok (nearest_ (scan_ring' reference g (grow_n (S n) w)
                        (scan_ring' reference g (grow_n n w) c)),
            g, rings_trace (S (S n)) w).
Proof.
  intros Hwf. induction n as [|n IH]; intros w c Hc Hs Hn He Hhit [|fuel] Hf; try lia.
  - assert (Hr : 0 < rings_needed w) by lia.
    rewrite (loop_hit fuel reference w c g Hwf Hc Hs Hr Hhit).
    cbn [grow_n rings_trace]. rewrite app_nil_r. reflexivity.
  - assert (Hr : 0 < rings_needed w) by lia.
    rewrite (loop_skip fuel reference w c g Hwf Hc Hs Hr (He 0%nat ltac:(lia))).
    assert (Hs' : window_safe (grow w)) by (apply window_safe_grow; assumption).
    assert (Hn' : Z.of_nat n < rings_needed (grow w))
      by (rewrite rings_needed_grow; lia).
    assert (He' : forall j, (j < n)%nat -> points_of g (ring_of (grow_n j (grow w))) = [])
      by (intros j Hj; apply (He (S j)); lia).
    rewrite (IH (grow w) c Hc Hs' Hn' He' Hhit fuel ltac:(lia)). reflexivity.
Qed.

Lemma first_ring_with_points g w n :
  (forall j, (j < n)%nat -> points_of g (ring_of (grow_n j w)) = [])
  \/ exists k, (k < n)%nat
               /\ (forall j, (j < k)%nat -> points_of g (ring_of (grow_n j w)) = [])
               /\ points_of g (ring_of (grow_n k w)) <> [].
Proof.
  induction n as [|n [IH|IH]].
  - left. intros j Hj. lia.
  - destruct (points_of g (ring_of (grow_n n w))) as [|p l] eqn:E.
    + left. intros j Hj. destruct (decide (j = n)) as [->|]; [done|]. apply IH. lia.
    + right. exists n. split; [lia|]. split; [done|]. by rewrite E.
  - right. destruct IH as (k & Hk & H). exists k. split; [lia|done].
Qed.

(** The two ways a call of nearest_neighbor can go. *)
Lemma nearest_neighbor_cases reference g :
  grid_wf g = true -> int_point reference = true ->
  let w := home_window reference in
  let n := Z.to_nat (rings_needed w) in
  ((forall j, (j < n)%nat -> points_of g (ring_of (grow_n j w)) = [])
   /\ nearest_neighbor' reference g = Ok (mkPoint (-1) (-1), g, rings_trace n w))
  \/ (exists k, (k < n)%nat
        /\ (forall j, (j < k)%nat -> points_of g (ring_of (grow_n j w)) = [])
        /\ points_of g (ring_of (grow_n k w)) <> []
        /\ nearest_neighbor' reference g
           = Ok (nearest_ (scan_ring' reference g (grow_n (S k) w)
                             (scan_ring' reference g (grow_n k w) (no_candidate DBL_MAX))),
                 g, rings_trace (S (S k)) w)).
Proof.
  intros Hwf Hint w n. pose proof (home_window_safe reference Hint) as Hs. fold w in Hs.
  rewrite nearest_neighbor_eq. fold w n.
  destruct (first_ring_with_points g w n) as [He|(k & Hk & He & Hhit)].
  - left. split; [exact He|].
    apply (loop_all_empty reference g Hwf n w (no_candidate DBL_MAX) eq_refl Hs eq_refl He). lia.
  - right. exists k. split; [exact Hk|]. split; [exact He|]. split; [exact Hhit|].
    apply (loop_first_hit reference g Hwf k w (no_candidate DBL_MAX) eq_refl Hs
             ltac:(lia) He Hhit). lia.
Qed.
End Search.

Lemma grid_ext (g g' : Grid) :
  grid_wf g = true -> grid_wf g' = true ->
  (forall i j, grid_at g i j = grid_at g' i j) -> g = g'.
Proof.
  rewrite !grid_wf_spec, GRID_size_eq. intros [Hl Hc] [Hl' Hc'] H.
  apply list_eq. intros i.
  destruct (decide (i < 101)%nat) as [Hi|Hi].
  - destruct (lookup_lt_is_Some_2 g i) as [col Hcol]; [lia|].
    destruct (lookup_lt_is_Some_2 g' i) as [col' Hcol']; [lia|].
    rewrite Hcol, Hcol'. f_equal. apply list_eq. intros j.
    destruct (decide (j < 101)%nat) as [Hj|Hj].
    + specialize (H (Z.of_nat i) (Z.of_nat j)). unfold grid_at in H.
      destruct (Z.ltb_spec (Z.of_nat i) 0); [lia|].
      destruct (Z.ltb_spec (Z.of_nat j) 0); [lia|].
      cbn [orb] in H. rewrite !Nat2Z.id, Hcol, Hcol' in H. exact H.
    + rewrite !lookup_ge_None_2; [reflexivity| |].
      * rewrite (Hc' _ _ Hcol'). lia.
      * rewrite (Hc _ _ Hcol). lia.
  - rewrite !lookup_ge_None_2; [reflexivity|lia|lia].
Qed.

Lemma ring_of_home x y :
  0 <= x <= 100 -> 0 <= y <= 100 -> ring_of (mkWindow x y x y) = [(x, y); (x, y)].
Proof.
  intros Hx Hy. unfold ring_of, ring_rows. cbn [curmaxx curmaxy curminx curminy].
  rewrite hash_func_MAX, clamp_cell_id by done.
  rewrite Z.max_l, Z.min_l by lia.
  replace (Z.to_nat (x - x + 1)) with 1%nat by lia. reflexivity.
Qed.

Lemma rings_needed_home_pos reference : 0 < rings_needed (home_window reference).
Proof. unfold rings_needed, home_window. cbn. rewrite hash_func_MAX. lia. Qed.

Section Order.
Context {D : Type} (distance : Point -> Point -> D) (dlt : D -> D -> bool).
Hypothesis dlt_trans : forall a b c, dlt a b = true -> dlt b c = true -> dlt a c = true.
Hypothesis dlt_between :
  forall a b c, dlt a b = true -> dlt a c = true \/ dlt c b = true.

Lemma visit_first_best reference_ l (c : candidate) p :
  first_best_of distance dlt reference_ l c ->
  first_best_of distance dlt reference_ (l ++ [p]) (visit distance dlt reference_ c p).
Proof.
  intros (Hc & Hd & l1 & l2 & El & H1 & H2). unfold visit. rewrite Hc. cbn [negb].
  destruct (dlt (distance p reference_) (dist_ c)) eqn:Hlt.
  - split; [done|]. split; [done|]. cbn [nearest_ dist_].
    exists l, []. split; [done|]. split; [|intros q Hq; by apply elem_of_nil in Hq].
    intros q Hq. rewrite El in Hq.
    apply elem_of_app in Hq as [Hq|Hq]; [|apply elem_of_cons in Hq as [->|Hq]].
    + eapply dlt_trans; [exact Hlt|]. by apply H1.
    + by rewrite <- Hd.
    + destruct (dlt_between _ _ (distance q reference_) Hlt) as [H|H]; [done|].
      rewrite (H2 q Hq) in H. done.
  - split; [done|]. split; [done|].
    exists l1, (l2 ++ [p]). split; [by rewrite El, <- app_assoc|]. split; [done|].
    intros q Hq. apply elem_of_app in Hq as [Hq|Hq]; [by apply H2|].
    by apply list_elem_of_singleton in Hq as ->.
Qed.

Lemma fold_first_best reference_ l : forall seen (c : candidate),
  first_best_of distance dlt reference_ seen c ->
  first_best_of distance dlt reference_ (seen ++ l)
    (fold_left (visit distance dlt reference_) l c).
Proof.
  induction l as [|p l IH]; intros seen c Hc; cbn [fold_left].
  - by rewrite app_nil_r.
  - replace (seen ++ p :: l) with ((seen ++ [p]) ++ l) by (by rewrite <- app_assoc).
    by apply IH, visit_first_best.
Qed.

Lemma fold_first_best_unset reference_ l (c : candidate) :
  fstset_ c = false -> l <> [] ->
  first_best_of distance dlt reference_ l (fold_left (visit distance dlt reference_) l c).
Proof.
  intros Hc Hl. destruct l as [|p l]; [done|]. cbn [fold_left].
  apply (fold_first_best reference_ l [p]).
  unfold visit. rewrite Hc. cbn. split; [done|]. split; [done|].
  exists [], []. split; [done|]. split; intros q Hq; by apply elem_of_nil in Hq.
Qed.
End Order.

Section Extras.
Context {D : Type} (distance : Point -> Point -> D) (dlt : D -> D -> bool) (DBL_MAX : D).

Abbreviation visit' := (visit distance dlt).
Abbreviation find_nearest' := (find_nearest distance dlt).
Abbreviation loop := (nearest_neighbor_loop distance dlt).
Abbreviation nearest_neighbor' := (nearest_neighbor distance dlt DBL_MAX).
Abbreviation scan_ring' := (scan_ring distance dlt).

(** The candidate after the first ring with points and the ring after it. *)
Lemma scan_two_rings_best reference g w (c : candidate) :
  (forall d, dlt d d = false) ->
  (forall a b d, dlt a b = true -> dlt b d = true -> dlt a d = true) ->
  fstset_ c = false -> points_of g (ring_of w) <> [] ->
  best_of distance dlt reference
    (points_of g (ring_of w) ++ points_of g (ring_of (grow w)))
    (scan_ring' reference g (grow w) (scan_ring' reference g w c)).
Proof.
  intros Hirr Htr Hc Hne. unfold scan_ring.
  apply fold_visit_best; try done. apply fold_visit_first; try done.
  rewrite fold_visit_flag, Hc. destruct (points_of g (ring_of w)); [congruence|reflexivity].
Qed.

(** X4. find_nearest sets the found flag exactly when it was set before or a scanned
    cell holds a point, and never clears it; when the scanned cells hold no point the
    three output parameters are left as they were. *)
Theorem find_nearest_flag g maxx maxy minx miny reference_ (c : candidate) :
  grid_wf g = true ->
  exists c' t,
    find_nearest' maxx maxy minx miny reference_ c g = Ok (c', g, t)
    /\ fstset_ c' = fstset_ c || match points_of g t with [] => false | _ => true end
    /\ (points_of g t = [] -> c' = c).
Proof.
  intros Hwf. eexists _, _. split; [by apply find_nearest_spec|]. split.
  - apply fold_visit_flag.
  - intros ->. reflexivity.
Qed.

(** X5. find_nearest accumulates: if the candidate passed in is a point of [seen] that
    no point of [seen] beats on distance, the candidate passed out is such a point for
    [seen] together with the points of the scanned cells. *)
Theorem find_nearest_keeps_best g maxx maxy minx miny reference_ (c : candidate) seen :
  (forall d, dlt d d = false) ->
  (forall a b d, dlt a b = true -> dlt b d = true -> dlt a d = true) ->
  grid_wf g = true ->
  best_of distance dlt reference_ seen c ->
  exists c' t,
    find_nearest' maxx maxy minx miny reference_ c g = Ok (c', g, t)
    /\ best_of distance dlt reference_ (seen ++ points_of g t) c'.
Proof.
  intros Hirr Htr Hwf Hbest. eexists _, _. split; [by apply find_nearest_spec|].
  by apply fold_visit_best.
Qed.

(** X6. Ties go to the point met first: called with the found flag unset on cells that
    hold a point, find_nearest returns the first point, in scan order, of minimal
    distance; every point scanned before it is strictly farther and no point scanned
    after it is nearer. *)
Theorem find_nearest_first_minimum g maxx maxy minx miny reference_ (c : candidate) :
  (forall a b d, dlt a b = true -> dlt b d = true -> dlt a d = true) ->
  (forall a b d, dlt a b = true -> dlt a d = true \/ dlt d b = true) ->
  grid_wf g = true ->
  fstset_ c = false ->
  points_of g (ring_rows maxx maxy minx miny) <> [] ->
  exists c' l1 l2,
    find_nearest' maxx maxy minx miny reference_ c g
    = Ok (c', g, ring_rows maxx maxy minx miny)
    /\ points_of g (ring_rows maxx maxy minx miny) = l1 ++ nearest_ c' :: l2
    /\ (forall p, p ∈ l1 ->
          dlt (distance (nearest_ c') reference_) (distance p reference_) = true)
    /\ (forall p, p ∈ l2 ->
          dlt (distance p reference_) (distance (nearest_ c') reference_) = false).
Proof.
  intros Htr Hbt Hwf Hc Hne.
  destruct (fold_first_best_unset distance dlt Htr Hbt reference_ _ c Hc Hne)
    as (_ & Hd & l1 & l2 & El & H1 & H2).
  eexists _, l1, l2. split; [by apply find_nearest_spec|]. split; [exact El|].
  rewrite <- Hd. split; assumption.
Qed.

(** X7. nearest_neighbor returns either the sentinel (-1,-1) or a point held by a cell
    of the grid; the placeholder Point({0, 0}) it starts from is never returned as
    such. *)
Theorem nearest_neighbor_sentinel_or_stored g reference p g' t :
  grid_wf g = true -> int_point reference = true ->
  nearest_neighbor' reference g = Ok (p, g', t) ->
  p = mkPoint (-1) (-1) \/ stored g p.
Proof.
  intros Hwf Hint Hrun.
  destruct (nearest_neighbor_cases distance dlt DBL_MAX reference g Hwf Hint)
    as [[_ E]|(k & _ & _ & Hhit & E)]; rewrite E in Hrun;
    apply Ok_inj in Hrun as [<- _].
  - by left.
  - right. set (w := home_window reference) in *.
    set (l1 := points_of g (ring_of (grow_n k w))) in *.
    set (l2 := points_of g (ring_of (grow_n (S k) w))).
    unfold scan_ring. change (grow_n k (grow w)) with (grow_n (S k) w). fold l1 l2.
    set (c1 := fold_left (visit' reference) l1 (no_candidate DBL_MAX)).
    assert (Hc1 : fstset_ c1 = true).
    { unfold c1. rewrite fold_visit_flag. destruct l1; [congruence|reflexivity]. }
    pose proof (fold_visit_from distance dlt reference l2 c1) as H2.
    pose proof (fold_visit_from distance dlt reference l1 (no_candidate DBL_MAX)) as H1.
    cbn zeta in H1, H2. fold c1 in H1.
    destruct H2 as [H2|H2].
    + apply (points_of_stored g (ring_of (grow_n (S k) w))). exact H2.
    + rewrite H2. destruct H1 as [H1|H1].
      * apply (points_of_stored g (ring_of (grow_n k w))). exact H1.
      * rewrite H1 in Hc1. discriminate.
Qed.

(** X8. What nearest_neighbor computes.  With w the window at the unclamped home cell
    and n = rings_needed w: if the rows of the first n rings hold no point, the result
    is the sentinel and the rows of those n rings are what was read; otherwise, with k
    the first ring whose rows hold a point, the result is the candidate left by
    scanning ring k and then ring k + 1, and the rows of rings 0 .. k + 1 are what was
    read.  Ring j is the window grown j times. *)
Theorem nearest_neighbor_first_ring_with_points g reference :
  grid_wf g = true -> int_point reference = true ->
  let w := home_window reference in
  let n := Z.to_nat (rings_needed w) in
  ((forall j, (j < n)%nat -> points_of g (ring_of (grow_n j w)) = []) ->
   nearest_neighbor' reference g = Ok (mkPoint (-1) (-1), g, rings_trace n w))
  /\ (forall k, (k < n)%nat ->
        (forall j, (j < k)%nat -> points_of g (ring_of (grow_n j w)) = []) ->
        points_of g (ring_of (grow_n k w)) <> [] ->
        nearest_neighbor' reference g
        = Ok (nearest_ (scan_ring' reference g (grow_n (S k) w)
                          (scan_ring' reference g (grow_n k w) (no_candidate DBL_MAX))),
              g, rings_trace (S (S k)) w))
  /\ (forall j, ring_of (grow_n j w)
                = ring_rows (curmaxx w + Z.of_nat j) (curmaxy w + Z.of_nat j)
                            (curminx w - Z.of_nat j) (curminy w - Z.of_nat j)).
Proof.
  intros Hwf Hint w n. pose proof (home_window_safe reference Hint) as Hs. fold w in Hs.
  split; [|split].
  - intros He. rewrite nearest_neighbor_eq. fold w n.
    apply (loop_all_empty distance dlt reference g Hwf n w (no_candidate DBL_MAX)
             eq_refl Hs eq_refl He). lia.
  - intros k Hk He Hhit. rewrite nearest_neighbor_eq. fold w n.
    apply (loop_first_hit distance dlt reference g Hwf k w (no_candidate DBL_MAX)
             eq_refl Hs ltac:(lia) He Hhit). lia.
  - intros j. by rewrite grow_n_eq.
Qed.

(** X9. When ring k is the first ring whose rows hold a point, nearest_neighbor returns
    a point of the rows of rings k and k + 1, and no point of those rows is strictly
    nearer to the reference point than the one returned. *)
Theorem nearest_neighbor_best_of_two_rings g reference k :
  (forall d, dlt d d = false) ->
  (forall a b d, dlt a b = true -> dlt b d = true -> dlt a d = true) ->
  grid_wf g = true -> int_point reference = true ->
  let w := home_window reference in
  (k < Z.to_nat (rings_needed w))%nat ->
  (forall j, (j < k)%nat -> points_of g (ring_of (grow_n j w)) = []) ->
  points_of g (ring_of (grow_n k w)) <> [] ->
  exists q,
    nearest_neighbor' reference g = Ok (q, g, rings_trace (S (S k)) w)
    /\ q ∈ points_of g (ring_of (grow_n k w)) ++ points_of g (ring_of (grow_n (S k) w))
    /\ forall p, p ∈ points_of g (ring_of (grow_n k w))
                     ++ points_of g (ring_of (grow_n (S k) w)) ->
         dlt (distance p reference) (distance q reference) = false.
Proof.
  intros Hirr Htr Hwf Hint w Hk He Hhit.
  pose proof (home_window_safe reference Hint) as Hs. fold w in Hs.
  pose proof (scan_two_rings_best reference g (grow_n k w) (no_candidate DBL_MAX)
                Hirr Htr eq_refl Hhit) as (_ & Hin & Hd & Hmin).
  rewrite <- grow_n_grow in Hin, Hd, Hmin. change (grow_n k (grow w)) with (grow_n (S k) w) in *.
  eexists. split; [|split; [exact Hin|]].
  - rewrite nearest_neighbor_eq. fold w.
    apply (loop_first_hit distance dlt reference g Hwf k w (no_candidate DBL_MAX)
             eq_refl Hs ltac:(lia) He Hhit). lia.
  - intros p Hp. rewrite <- Hd. by apply Hmin.
Qed.

(** X10. Insert then query, for a point with both coordinates in [0, MAX]: the query at
    the inserted point itself finds a stored point that is not farther from it than
    the point is from itself. *)
Theorem insert_then_nearest_neighbor g p :
  (forall d, dlt d d = false) ->
  (forall a b d, dlt a b = true -> dlt b d = true -> dlt a d = true) ->
  grid_wf g = true ->
  0 <= px p <= MAX -> 0 <= py p <= MAX ->
  exists q g' t,
    (let! _ := insert p in nearest_neighbor' p) g = Ok (q, g', t)
    /\ stored g' p /\ stored g' q
    /\ dlt (distance p p) (distance q p) = false.
Proof.
  intros Hirr Htr Hwf Hx Hy. unfold MAX in Hx, Hy.
  assert (Hint : int_point p = true).
  { unfold int_point. rewrite andb_true_iff, !in_int_spec. unfold INT_MIN, INT_MAX. lia. }
  destruct (insert_Ok p g Hwf) as (a & Ha & Hins).
  assert (Hhx : 0 <= hash_func (px p) <= 100).
  { rewrite hash_func_small by lia. unfold DIV.
    split; [apply Z.div_pos|apply Z.div_le_upper_bound]; lia. }
  assert (Hhy : 0 <= hash_func (py p) <= 100).
  { rewrite hash_func_small by lia. unfold DIV.
    split; [apply Z.div_pos|apply Z.div_le_upper_bound]; lia. }
  rewrite !clamp_cell_id in Ha, Hins by done.
  set (x := hash_func (px p)) in *. set (y := hash_func (py p)) in *.
  set (g' := grid_set g x y (a ++ [p])) in *.
  assert (Hwf' : grid_wf g' = true) by (by apply grid_wf_set).
  assert (Hat : grid_at g' x y = Some (a ++ [p])) by (by apply grid_at_set_eq).
  set (w := home_window p).
  assert (Ering : ring_of w = [(x, y); (x, y)]) by (by apply ring_of_home).
  assert (Epts : points_of g' (ring_of w) = (a ++ [p]) ++ (a ++ [p]) ++ []).
  { rewrite Ering, !points_of_cons, (cell_points_Some _ _ _ _ Hat). reflexivity. }
  assert (Hne : points_of g' (ring_of w) <> []).
  { rewrite Epts. destruct a; discriminate. }
  pose proof (scan_two_rings_best p g' w (no_candidate DBL_MAX) Hirr Htr eq_refl Hne)
    as (_ & Hin & Hd & Hmin).
  pose proof (loop_first_hit distance dlt p g' Hwf' 0%nat w (no_candidate DBL_MAX)
                eq_refl (home_window_safe p Hint) (rings_needed_home_pos p)
                ltac:(intros j Hj; lia) Hne) as Hrun.
  cbn [grow_n] in Hrun.
  eexists _, g', _. split; [|split; [|split]].
  - rewrite (bind_step _ _ _ _ _ _ Hins), nearest_neighbor_eq. fold w.
    rewrite Hrun by lia. reflexivity.
  - exists x, y, (a ++ [p]). split; [done|]. apply elem_of_app. right.
    by apply list_elem_of_singleton.
  - apply elem_of_app in Hin as [Hin|Hin]; eapply points_of_stored, Hin.
  - rewrite <- Hd. apply Hmin. apply elem_of_app. left. rewrite Epts.
    apply elem_of_app. left. apply elem_of_app. right. by apply list_elem_of_singleton.
Qed.

(** X11. The blind row.  For a reference point whose home row hy is neither the first
    nor the last row of the grid, nearest_neighbor reads no cell of row hy other than
    the home cell itself, whatever the grid holds. *)
Theorem nearest_neighbor_never_reads_home_row g reference p g' t x :
  grid_wf g = true -> int_point reference = true ->
  0 < hash_func (py reference) < hash_func MAX ->
  x <> hash_func (px reference) ->
  nearest_neighbor' reference g = Ok (p, g', t) ->
  (x, hash_func (py reference)) ∉ t.
Proof.
  intros Hwf Hint Hrow Hx Hrun Hin. rewrite hash_func_MAX in Hrow.
  assert (Ht : exists n, t = rings_trace n (home_window reference)).
  { destruct (nearest_neighbor_cases distance dlt DBL_MAX reference g Hwf Hint)
      as [[_ E]|(k & _ & _ & _ & E)]; rewrite E in Hrun;
      apply Ok_inj in Hrun as (_ & _ & <-); eauto. }
  destruct Ht as [n ->].
  apply elem_of_rings_trace in Hin as (j & _ & Hin).
  rewrite grow_n_eq in Hin. unfold ring_of, home_window in Hin.
  cbn [curmaxx curmaxy curminx curminy get] in Hin.
  apply elem_of_ring_rows in Hin as [Hxr Hyr].
  rewrite hash_func_MAX in Hxr. rewrite !clamp_cell_spec in Hyr. lia.
Qed.

(** X12. On the grid as constructed the while loop of nearest_neighbor runs exactly
    max (hx, hy, H - hx, H - hy) + 2 times, for the unclamped home cell (hx, hy) of the
    reference point and H = hash_func(MAX): with fewer iterations allowed it is still
    running, and with that many it returns the sentinel, having read the rows of
    every ring. *)
Theorem nearest_neighbor_empty_grid_iterations reference :
  int_point reference = true ->
  let w := home_window reference in
  let n := Z.to_nat (rings_needed w) in
  (forall fuel, (fuel <= n)%nat ->
     loop fuel reference w (no_candidate DBL_MAX) GRID_init = OutOfFuel)
  /\ (forall fuel, (n < fuel)%nat ->
        loop fuel reference w (no_candidate DBL_MAX) GRID_init
        = Ok (mkPoint (-1) (-1), GRID_init, rings_trace n w))
  /\ Z.of_nat n + 1
     = Z.max (Z.max (hash_func (px reference)) (hash_func (py reference)))
             (Z.max (hash_func MAX - hash_func (px reference))
                    (hash_func MAX - hash_func (py reference))) + 2.
Proof.
  intros Hint w n. pose proof (home_window_safe reference Hint) as Hs. fold w in Hs.
  pose proof (rings_needed_home_pos reference) as Hpos. fold w in Hpos.
  split; [|split].
  - intros fuel Hf.
    apply (loop_empty_grid_running distance dlt reference fuel w (no_candidate DBL_MAX)
             eq_refl Hs). lia.
  - intros fuel Hf.
    apply (loop_all_empty distance dlt reference GRID_init grid_wf_init n w
             (no_candidate DBL_MAX) eq_refl Hs eq_refl); [|exact Hf].
    intros j _. apply points_of_init.
  - subst n. rewrite Z2Nat.id by lia. unfold w, rings_needed, home_window. cbn. lia.
Qed.

(** X14. The value dist is initialised with never matters: nearest_neighbor gives the
    same result whatever stands for __DBL_MAX__. *)
Theorem nearest_neighbor_ignores_initial_dist (m1 m2 : D) g reference :
  grid_wf g = true -> int_point reference = true ->
  nearest_neighbor distance dlt m1 reference g
  = nearest_neighbor distance dlt m2 reference g.
Proof.
  intros Hwf Hint.
  pose proof (home_window_safe reference Hint) as Hs.
  set (w := home_window reference) in *.
  rewrite (nearest_neighbor_eq distance dlt m1), (nearest_neighbor_eq distance dlt m2).
  fold w. set (n := Z.to_nat (rings_needed w)).
  destruct (first_ring_with_points g w n) as [He|(k & Hk & He & Hhit)].
  - rewrite (loop_all_empty distance dlt reference g Hwf n w (no_candidate m1)
               eq_refl Hs eq_refl He) by lia.
    rewrite (loop_all_empty distance dlt reference g Hwf n w (no_candidate m2)
               eq_refl Hs eq_refl He) by lia.
    reflexivity.
  - rewrite (loop_first_hit distance dlt reference g Hwf k w (no_candidate m1)
               eq_refl Hs ltac:(lia) He Hhit) by lia.
    rewrite (loop_first_hit distance dlt reference g Hwf k w (no_candidate m2)
               eq_refl Hs ltac:(lia) He Hhit) by lia.
    unfold scan_ring at 2 4.
    by rewrite (fold_visit_unset distance dlt reference _
                  (no_candidate m1) (no_candidate m2) eq_refl eq_refl Hhit).
Qed.
End Extras.

(** X13. Insertions into different cells commute: the two orders succeed and leave the
    same grid. *)
Theorem insert_commute g p q :
  grid_wf g = true ->
  (clamp_cell (hash_func (px p)), clamp_cell (hash_func (py p)))
  <> (clamp_cell (hash_func (px q)), clamp_cell (hash_func (py q))) ->
  exists g' cp cq,
    (let! _ := insert p in insert q) g = Ok (tt, g', [cp; cq])
    /\ (let! _ := insert q in insert p) g = Ok (tt, g', [cq; cp]).
Proof.
  intros Hwf Hne.
  set (xp := clamp_cell (hash_func (px p))) in *.
  set (yp := clamp_cell (hash_func (py p))) in *.
  set (xq := clamp_cell (hash_func (px q))) in *.
  set (yq := clamp_cell (hash_func (py q))) in *.
  pose proof (clamp_cell_range (hash_func (px p))) as Hxp. fold xp in Hxp.
  pose proof (clamp_cell_range (hash_func (py p))) as Hyp. fold yp in Hyp.
  pose proof (clamp_cell_range (hash_func (px q))) as Hxq. fold xq in Hxq.
  pose proof (clamp_cell_range (hash_func (py q))) as Hyq. fold yq in Hyq.
  destruct (insert_Ok p g Hwf) as (a & Ha & Hp). fold xp yp in Ha, Hp.
  destruct (insert_Ok q g Hwf) as (b & Hb & Hq). fold xq yq in Hb, Hq.
  set (gp := grid_set g xp yp (a ++ [p])) in *.
  set (gq := grid_set g xq yq (b ++ [q])) in *.
  assert (Hwfp : grid_wf gp = true) by (by apply grid_wf_set).
  assert (Hwfq : grid_wf gq = true) by (by apply grid_wf_set).
  destruct (insert_Ok q gp Hwfp) as (b' & Hb' & Hpq). fold xq yq in Hb', Hpq.
  destruct (insert_Ok p gq Hwfq) as (a' & Ha' & Hqp). fold xp yp in Ha', Hqp.
  assert (b' = b) as ->.
  { unfold gp in Hb'. rewrite grid_at_set_ne in Hb'; [congruence|lia|lia|].
    intros E. apply Hne. by rewrite E. }
  assert (a' = a) as ->.
  { unfold gq in Ha'. rewrite grid_at_set_ne in Ha'; [congruence|lia|lia|done]. }
  assert (Eg : grid_set gp xq yq (b ++ [q]) = grid_set gq xp yp (a ++ [p])).
  { apply grid_ext; [by apply grid_wf_set|by apply grid_wf_set|]. intros i j.
    destruct (decide ((i, j) = (xq, yq))) as [E|E].
    - injection E as -> ->. rewrite grid_at_set_eq by done.
      rewrite grid_at_set_ne; [|lia|lia|intros E; apply Hne; by rewrite E].
      unfold gq. by rewrite grid_at_set_eq.
    - rewrite grid_at_set_ne by (lia || done).
      destruct (decide ((i, j) = (xp, yp))) as [E'|E'].
      + injection E' as -> ->. rewrite grid_at_set_eq by done.
        unfold gp. by rewrite grid_at_set_eq.
      + rewrite grid_at_set_ne by (lia || done).
        unfold gp, gq. rewrite !grid_at_set_ne by (lia || done). reflexivity. }
  exists (grid_set gp xq yq (b ++ [q])), (xp, yp), (xq, yq). split.
  - by rewrite (bind_Ok _ _ _ _ _ _ _ _ _ Hp Hpq).
  - rewrite Eg. by rewrite (bind_Ok _ _ _ _ _ _ _ _ _ Hq Hqp).
Qed.

(** * The code on concrete inputs *)

Example hash_func_truncates :
  hash_func 19 = 1 /\ hash_func (-15) = -1 /\ hash_func 1000 = 100.
Proof. repeat split. Qed.

Example hash_func_rounds_in_binary32 :
  hash_func 16777219 = 1677722 /\ Z.quot 16777219 DIV = 1677721.
Proof. split; reflexivity. Qed.

Example nearest_neighbor_two_corners :
  returned (nearest_neighbor sq_distance Z.ltb FAR (mkPoint 0 0)
              (grid_with [mkPoint 5 5; mkPoint 995 995])) = Ok (mkPoint 5 5)
  /\ returned (nearest_neighbor sq_distance Z.ltb FAR (mkPoint 1000 1000)
                 (grid_with [mkPoint 5 5; mkPoint 995 995])) = Ok (mkPoint 995 995).
Proof. split; vm_compute; reflexivity. Qed.

Example nearest_neighbor_tie_keeps_first :
  returned (nearest_neighbor sq_distance Z.ltb FAR (mkPoint 15 15)
              (grid_with [mkPoint 12 12; mkPoint 18 18])) = Ok (mkPoint 12 12).
Proof. vm_compute. reflexivity. Qed.

(** C1. The code misses the nearest neighbour.  With the single point (45,55) stored (in
    cell (4,5)), the query (55,55), whose home cell (5,5) lies in the same row, returns
    the sentinel (-1,-1): the stored point lies in a side column of every ring and its
    row is never scanned again.  With (55,85) stored as well, the query returns (55,85),
    at squared distance 900, although (45,55) is at squared distance 100. *)
Theorem nearest_neighbor_misses_side_column :
  (exists g t0 t,
     insert (mkPoint 45 55) GRID_init = Ok (tt, g, t0)
     /\ grid_at g 4 5 = Some [mkPoint 45 55]
     /\ nearest_neighbor sq_distance Z.ltb FAR (mkPoint 55 55) g
        = Ok (mkPoint (-1) (-1), g, t))
  /\ (exists g t0 t,
        insert_all [mkPoint 45 55; mkPoint 55 85] GRID_init = Ok (tt, g, t0)
        /\ nearest_neighbor sq_distance Z.ltb FAR (mkPoint 55 55) g
           = Ok (mkPoint 55 85, g, t)
        /\ sq_distance (mkPoint 45 55) (mkPoint 55 55) = 100
        /\ sq_distance (mkPoint 55 85) (mkPoint 55 55) = 900).
Proof.
  split.
  - eexists _, _, _. split; [vm_compute; reflexivity|].
    split; vm_compute; reflexivity.
  - eexists _, _, _. split; [vm_compute; reflexivity|].
    split; [vm_compute; reflexivity|]. split; reflexivity.
Qed.

(** Against C4 as stated: on the empty grid, for the reference point
    (2000000000, 2000000000), the while loop of nearest_neighbor has not finished after
    (MAX/DIV + 1)^2 = 10201 iterations, the number of cells of the grid, while for the
    reference point (500, 500) it finishes within 52. *)
Lemma nearest_neighbor_iterations_exceed_grid :
  grid_wf GRID_init = true
  /\ int_point (mkPoint 2000000000 2000000000) = true
  /\ nearest_neighbor_loop sq_distance Z.ltb
       (Z.to_nat ((MAX / DIV + 1) * (MAX / DIV + 1)))
       (mkPoint 2000000000 2000000000)
       (home_window (mkPoint 2000000000 2000000000)) (no_candidate FAR) GRID_init
     = OutOfFuel
  /\ exists t, nearest_neighbor_loop sq_distance Z.ltb 52 (mkPoint 500 500)
                 (home_window (mkPoint 500 500)) (no_candidate FAR) GRID_init
               = Ok (mkPoint (-1) (-1), GRID_init, t).
Proof.
  split; [reflexivity|]. split; [reflexivity|]. split; [vm_compute; reflexivity|].
  eexists. vm_compute. reflexivity.
Qed.

(** Against C2 as stated: for the window x in [0..0], y in [50..150] the rows read are
    not y = maxy = 150 and y = miny = 50 but row 100, which lies strictly between the
    two bounds, and row 50: find_nearest takes the point (5,1005) stored in cell
    (0,100). *)
Lemma find_nearest_reads_clamped_row :
  grid_wf (grid_with [mkPoint 5 1005]) = true
  /\ grid_at (grid_with [mkPoint 5 1005]) 0 100 = Some [mkPoint 5 1005]
  /\ find_nearest sq_distance Z.ltb 0 150 0 50 (mkPoint 0 0) (no_candidate FAR)
       (grid_with [mkPoint 5 1005])
     = Ok ({| nearest_ := mkPoint 5 1005; dist_ := 1010050; fstset_ := true |},
           grid_with [mkPoint 5 1005], [(0, 100); (0, 50)])
  /\ 50 < 100 < 150
  /\ (0, 150) ∉ [(0, 100); (0, 50)].
Proof.
  split; [reflexivity|]. split; [vm_compute; reflexivity|].
  split; [vm_compute; reflexivity|]. split; [lia|].
  intros H. apply elem_of_cons in H as [H|H]; [discriminate|].
  apply elem_of_cons in H as [H|H]; [discriminate|]. by apply elem_of_nil in H.
Qed.

(** Against C6 as stated: the window x in [0..0], y in [-2..-1] lies entirely below the
    valid range on the y axis, yet find_nearest reads cell (0,0) twice and takes the
    point (5,5) stored there as the nearest. *)
Lemma find_nearest_outside_y_scans_boundary_row :
  exists g t0,
    insert (mkPoint 5 5) GRID_init = Ok (tt, g, t0)
    /\ grid_wf g = true
    /\ (-1 < 0 \/ hash_func MAX < -2)
    /\ find_nearest sq_distance Z.ltb 0 (-1) 0 (-2) (mkPoint 0 0) (no_candidate FAR) g
       = Ok ({| nearest_ := mkPoint 5 5; dist_ := 50; fstset_ := true |},
             g, [(0, 0); (0, 0)])
    /\ find_nearest sq_distance Z.ltb 0 (-1) 0 (-2) (mkPoint 0 0) (no_candidate FAR) g
       <> Ok (no_candidate FAR, g, []).
Proof.
  eexists _, _. split; [vm_compute; reflexivity|]. split; [reflexivity|].
  split; [left; lia|]. split; [vm_compute; reflexivity|].
  vm_compute. discriminate.
Qed.

(** * Instances of the theorems *)

Lemma find_nearest_scans_top_and_bottom_rows_witness :
  grid_wf (grid_with [mkPoint 45 65]) = true
  /\ find_nearest sq_distance Z.ltb 6 6 4 4 (mkPoint 55 55) (no_candidate FAR)
       (grid_with [mkPoint 45 65])
     = Ok ({| nearest_ := mkPoint 45 65; dist_ := 200; fstset_ := true |},
           grid_with [mkPoint 45 65],
           [(6, 6); (6, 4); (5, 6); (5, 4); (4, 6); (4, 4)]).
Proof.
  split; [reflexivity|].
  exact (proj1 (find_nearest_scans_top_and_bottom_rows sq_distance Z.ltb
                  (grid_with [mkPoint 45 65]) 6 6 4 4 (mkPoint 55 55)
                  (no_candidate FAR) eq_refl)).
Defined.

Lemma nearest_neighbor_empty_sentinel_witness :
  int_point (mkPoint 37 990) = true
  /\ exists t, nearest_neighbor sq_distance Z.ltb FAR (mkPoint 37 990) GRID_init
               = Ok (mkPoint (-1) (-1), GRID_init, t).
Proof.
  split; [reflexivity|].
  apply (nearest_neighbor_empty_sentinel sq_distance Z.ltb FAR (mkPoint 37 990)).
  reflexivity.
Defined.

Lemma nearest_neighbor_terminates_witness :
  grid_wf (grid_with [mkPoint 5 5; mkPoint 995 995]) = true
  /\ int_point (mkPoint (-30) 2000) = true
  /\ exists p t,
       nearest_neighbor sq_distance Z.ltb FAR (mkPoint (-30) 2000)
         (grid_with [mkPoint 5 5; mkPoint 995 995])
       = Ok (p, grid_with [mkPoint 5 5; mkPoint 995 995], t).
Proof.
  split; [reflexivity|]. split; [reflexivity|].
  destruct (nearest_neighbor_terminates sq_distance Z.ltb FAR
              (grid_with [mkPoint 5 5; mkPoint 995 995]) (mkPoint (-30) 2000)
              eq_refl eq_refl) as (p & t & H & _).
  exists p, t. exact H.
Defined.

Lemma insert_placement_witness :
  forallb int_point [mkPoint 12 12; mkPoint (-7) 2000; mkPoint 18 18] = true
  /\ exists g t,
       insert_all [mkPoint 12 12; mkPoint (-7) 2000; mkPoint 18 18] GRID_init
       = Ok (tt, g, t)
       /\ grid_at g 1 1 = Some [mkPoint 12 12; mkPoint 18 18]
       /\ grid_at g 0 100 = Some [mkPoint (-7) 2000].
Proof.
  split; [reflexivity|].
  destruct (insert_placement [mkPoint 12 12; mkPoint (-7) 2000; mkPoint 18 18] eq_refl)
    as (g & t & Hrun & Hcells & _).
  exists g, t. split; [exact Hrun|]. split.
  - apply (Hcells 1 1); vm_compute; split; discriminate.
  - apply (Hcells 0 100); vm_compute; split; discriminate.
Defined.

Lemma find_nearest_outside_x_empty_witness :
  grid_wf (grid_with [mkPoint 5 5]) = true
  /\ (-1 < 0 \/ hash_func MAX < -3)
  /\ find_nearest sq_distance Z.ltb (-1) 2 (-3) 0 (mkPoint (-20) 5) (no_candidate FAR)
       (grid_with [mkPoint 5 5])
     = Ok (no_candidate FAR, grid_with [mkPoint 5 5], []).
Proof.
  assert (H : -1 < 0 \/ hash_func MAX < -3) by (left; reflexivity).
  split; [reflexivity|]. split; [exact H|].
  apply (find_nearest_outside_x_empty sq_distance Z.ltb (grid_with [mkPoint 5 5])
           (-1) 2 (-3) 0 (mkPoint (-20) 5) (no_candidate FAR) eq_refl H).
Defined.


Lemma insert_grows_one_cell_witness :
  grid_wf (grid_with [mkPoint 12 12]) = true
  /\ exists x y a g',
       grid_at (grid_with [mkPoint 12 12]) x y = Some a
       /\ insert (mkPoint 18 18) (grid_with [mkPoint 12 12]) = Ok (tt, g', [(x, y)])
       /\ grid_at g' x y = Some (a ++ [mkPoint 18 18]).
Proof.
  split; [reflexivity|].
  destruct (insert_grows_one_cell (mkPoint 18 18) (grid_with [mkPoint 12 12]) eq_refl)
    as (x & y & a & g' & _ & _ & Ha & Hins & Hat & _).
  exists x, y, a, g'. split; [exact Ha|]. split; [exact Hins|exact Hat].
Defined.

Lemma grid_access_in_bounds_witness :
  grid_wf GRID_init = true
  /\ exists g' x y,
       insert (mkPoint (-2147483648) 2147483647) GRID_init = Ok (tt, g', [(x, y)])
       /\ 0 <= x <= MAX / DIV /\ 0 <= y <= MAX / DIV.
Proof.
  split; [reflexivity|].
  apply (proj1 (grid_access_in_bounds sq_distance Z.ltb GRID_init eq_refl)).
Defined.

Lemma nearest_neighbor_repeatable_witness :
  grid_wf (grid_with [mkPoint 5 5; mkPoint 995 995]) = true
  /\ int_point (mkPoint 1000 1000) = true
  /\ exists p t,
       nearest_neighbor sq_distance Z.ltb FAR (mkPoint 1000 1000)
         (grid_with [mkPoint 5 5; mkPoint 995 995])
       = Ok (p, grid_with [mkPoint 5 5; mkPoint 995 995], t)
       /\ (let! p1 := nearest_neighbor sq_distance Z.ltb FAR (mkPoint 1000 1000) in
           let! p2 := nearest_neighbor sq_distance Z.ltb FAR (mkPoint 1000 1000) in
           ret (p1, p2)) (grid_with [mkPoint 5 5; mkPoint 995 995])
          = Ok ((p, p), grid_with [mkPoint 5 5; mkPoint 995 995], t ++ t).
Proof.
  split; [reflexivity|]. split; [reflexivity|].
  apply (nearest_neighbor_repeatable sq_distance Z.ltb FAR
           (grid_with [mkPoint 5 5; mkPoint 995 995]) (mkPoint 1000 1000));
    reflexivity.
Defined.

(** * Instances of the further properties *)

Lemma hash_func_conversion_defined_witness :
  in_int (-2147483648) = true
  /\ int_of_float (hash_float (-2147483648)) = Some (hash_func (-2147483648))
  /\ - 2 ^ 29 < hash_func (-2147483648) < 2 ^ 29.
Proof.
  split; [reflexivity|].
  destruct (hash_func_conversion_defined (-2147483648) eq_refl) as (H1 & H2 & _).
  split; [exact H1|exact H2].
Defined.

Lemma hash_func_truncating_division_witness :
  -2048 < -15 < 2048 /\ hash_func (-15) = Z.quot (-15) DIV.
Proof.
  assert (H : -2048 < -15 < 2048) by lia.
  split; [exact H|]. apply (hash_func_truncating_division (-15) H).
Defined.

Lemma hash_func_odd_witness :
  - INT_MAX <= 1005 <= INT_MAX /\ hash_func (- 1005) = - hash_func 1005.
Proof.
  assert (H : - INT_MAX <= 1005 <= INT_MAX) by (unfold INT_MAX; lia).
  split; [exact H|]. apply (hash_func_odd 1005 H).
Defined.

Lemma find_nearest_flag_witness :
  grid_wf (grid_with [mkPoint 5 5]) = true
  /\ exists c' t,
       find_nearest sq_distance Z.ltb 3 3 2 2 (mkPoint 9 9) (no_candidate FAR)
         (grid_with [mkPoint 5 5]) = Ok (c', grid_with [mkPoint 5 5], t)
       /\ fstset_ c'
          = fstset_ (no_candidate FAR)
            || match points_of (grid_with [mkPoint 5 5]) t with [] => false | _ => true end
       /\ (points_of (grid_with [mkPoint 5 5]) t = [] -> c' = no_candidate FAR).
Proof.
  split; [reflexivity|].
  apply (find_nearest_flag sq_distance Z.ltb (grid_with [mkPoint 5 5]) 3 3 2 2
           (mkPoint 9 9) (no_candidate FAR) eq_refl).
Defined.

Lemma find_nearest_keeps_best_witness :
  (forall d, Z.ltb d d = false)
  /\ (forall a b d, Z.ltb a b = true -> Z.ltb b d = true -> Z.ltb a d = true)
  /\ grid_wf (grid_with [mkPoint 5 5; mkPoint 12 3]) = true
  /\ best_of sq_distance Z.ltb (mkPoint 9 9) [mkPoint 5 5]
       {| nearest_ := mkPoint 5 5; dist_ := 32; fstset_ := true |}
  /\ exists c' t,
       find_nearest sq_distance Z.ltb 1 1 (-1) (-1) (mkPoint 9 9)
         {| nearest_ := mkPoint 5 5; dist_ := 32; fstset_ := true |}
         (grid_with [mkPoint 5 5; mkPoint 12 3])
       = Ok (c', grid_with [mkPoint 5 5; mkPoint 12 3], t)
       /\ best_of sq_distance Z.ltb (mkPoint 9 9)
            ([mkPoint 5 5] ++ points_of (grid_with [mkPoint 5 5; mkPoint 12 3]) t) c'.
Proof.
  assert (Hirr : forall d, Z.ltb d d = false) by (intros d; apply Z.ltb_irrefl).
  assert (Htr : forall a b d, Z.ltb a b = true -> Z.ltb b d = true -> Z.ltb a d = true)
    by (intros a b d; rewrite !Z.ltb_lt; lia).
  assert (Hbest : best_of sq_distance Z.ltb (mkPoint 9 9) [mkPoint 5 5]
                    {| nearest_ := mkPoint 5 5; dist_ := 32; fstset_ := true |}).
  { split; [reflexivity|]. split; [apply list_elem_of_singleton; reflexivity|].
    split; [reflexivity|].
    intros p Hp. apply list_elem_of_singleton in Hp. rewrite Hp. reflexivity. }
  split; [exact Hirr|]. split; [exact Htr|]. split; [reflexivity|]. split; [exact Hbest|].
  apply (find_nearest_keeps_best sq_distance Z.ltb (grid_with [mkPoint 5 5; mkPoint 12 3])
           1 1 (-1) (-1) (mkPoint 9 9) _ [mkPoint 5 5] Hirr Htr eq_refl Hbest).
Defined.

Lemma find_nearest_first_minimum_witness :
  (forall a b d, Z.ltb a b = true -> Z.ltb b d = true -> Z.ltb a d = true)
  /\ (forall a b d, Z.ltb a b = true -> Z.ltb a d = true \/ Z.ltb d b = true)
  /\ grid_wf (grid_with [mkPoint 12 12; mkPoint 18 18]) = true
  /\ points_of (grid_with [mkPoint 12 12; mkPoint 18 18]) (ring_rows 1 1 1 1) <> []
  /\ exists c' l1 l2,
       find_nearest sq_distance Z.ltb 1 1 1 1 (mkPoint 15 15) (no_candidate FAR)
         (grid_with [mkPoint 12 12; mkPoint 18 18])
       = Ok (c', grid_with [mkPoint 12 12; mkPoint 18 18], ring_rows 1 1 1 1)
       /\ points_of (grid_with [mkPoint 12 12; mkPoint 18 18]) (ring_rows 1 1 1 1)
          = l1 ++ nearest_ c' :: l2.
Proof.
  assert (Htr : forall a b d, Z.ltb a b = true -> Z.ltb b d = true -> Z.ltb a d = true)
    by (intros a b d; rewrite !Z.ltb_lt; lia).
  assert (Hbt : forall a b d, Z.ltb a b = true -> Z.ltb a d = true \/ Z.ltb d b = true)
    by (intros a b d; rewrite !Z.ltb_lt; lia).
  assert (Hne : points_of (grid_with [mkPoint 12 12; mkPoint 18 18]) (ring_rows 1 1 1 1)
                <> []) by (vm_compute; discriminate).
  split; [exact Htr|]. split; [exact Hbt|]. split; [reflexivity|]. split; [exact Hne|].
  destruct (find_nearest_first_minimum sq_distance Z.ltb
              (grid_with [mkPoint 12 12; mkPoint 18 18]) 1 1 1 1 (mkPoint 15 15)
              (no_candidate FAR) Htr Hbt eq_refl eq_refl Hne)
    as (c' & l1 & l2 & Hrun & El & _).
  exists c', l1, l2. split; [exact Hrun|exact El].
Defined.

Lemma nearest_neighbor_sentinel_or_stored_witness :
  grid_wf (grid_with [mkPoint 5 5; mkPoint 995 995]) = true
  /\ int_point (mkPoint 0 0) = true
  /\ nearest_neighbor sq_distance Z.ltb FAR (mkPoint 0 0)
       (grid_with [mkPoint 5 5; mkPoint 995 995])
     = Ok (mkPoint 5 5, grid_with [mkPoint 5 5; mkPoint 995 995],
           [(0, 0); (0, 0); (1, 1); (1, 0); (0, 1); (0, 0)])
  /\ (mkPoint 5 5 = mkPoint (-1) (-1)
      \/ stored (grid_with [mkPoint 5 5; mkPoint 995 995]) (mkPoint 5 5)).
Proof.
  assert (Hrun : nearest_neighbor sq_distance Z.ltb FAR (mkPoint 0 0)
                   (grid_with [mkPoint 5 5; mkPoint 995 995])
                 = Ok (mkPoint 5 5, grid_with [mkPoint 5 5; mkPoint 995 995],
                       [(0, 0); (0, 0); (1, 1); (1, 0); (0, 1); (0, 0)]))
    by (vm_compute; reflexivity).
  split; [reflexivity|]. split; [reflexivity|]. split; [exact Hrun|].
  apply (nearest_neighbor_sentinel_or_stored sq_distance Z.ltb FAR
           (grid_with [mkPoint 5 5; mkPoint 995 995]) (mkPoint 0 0) _ _ _
           eq_refl eq_refl Hrun).
Defined.

Lemma nearest_neighbor_first_ring_with_points_witness :
  grid_wf (grid_with [mkPoint 5 5; mkPoint 12 3]) = true
  /\ int_point (mkPoint 9 9) = true
  /\ points_of (grid_with [mkPoint 5 5; mkPoint 12 3])
       (ring_of (home_window (mkPoint 9 9))) <> []
  /\ nearest_neighbor sq_distance Z.ltb FAR (mkPoint 9 9)
       (grid_with [mkPoint 5 5; mkPoint 12 3])
     = Ok (nearest_
             (scan_ring sq_distance Z.ltb (mkPoint 9 9)
                (grid_with [mkPoint 5 5; mkPoint 12 3])
                (grow_n 1 (home_window (mkPoint 9 9)))
                (scan_ring sq_distance Z.ltb (mkPoint 9 9)
                   (grid_with [mkPoint 5 5; mkPoint 12 3])
                   (grow_n 0 (home_window (mkPoint 9 9))) (no_candidate FAR))),
           grid_with [mkPoint 5 5; mkPoint 12 3],
           rings_trace 2 (home_window (mkPoint 9 9))).
Proof.
  assert (Hne : points_of (grid_with [mkPoint 5 5; mkPoint 12 3])
                  (ring_of (home_window (mkPoint 9 9))) <> [])
    by (vm_compute; discriminate).
  split; [reflexivity|]. split; [reflexivity|]. split; [exact Hne|].
  destruct (nearest_neighbor_first_ring_with_points sq_distance Z.ltb FAR
              (grid_with [mkPoint 5 5; mkPoint 12 3]) (mkPoint 9 9) eq_refl eq_refl)
    as (_ & Hhit & _).
  apply (Hhit 0%nat).
  - vm_compute. lia.
  - intros j Hj. lia.
  - exact Hne.
Defined.

Lemma nearest_neighbor_best_of_two_rings_witness :
  (forall d, Z.ltb d d = false)
  /\ (forall a b d, Z.ltb a b = true -> Z.ltb b d = true -> Z.ltb a d = true)
  /\ grid_wf (grid_with [mkPoint 5 5; mkPoint 12 3]) = true
  /\ int_point (mkPoint 9 9) = true
  /\ exists q,
       nearest_neighbor sq_distance Z.ltb FAR (mkPoint 9 9)
         (grid_with [mkPoint 5 5; mkPoint 12 3])
       = Ok (q, grid_with [mkPoint 5 5; mkPoint 12 3],
             rings_trace 2 (home_window (mkPoint 9 9)))
       /\ forall p,
            p ∈ points_of (grid_with [mkPoint 5 5; mkPoint 12 3])
                  (ring_of (grow_n 0 (home_window (mkPoint 9 9))))
                ++ points_of (grid_with [mkPoint 5 5; mkPoint 12 3])
                     (ring_of (grow_n 1 (home_window (mkPoint 9 9)))) ->
            Z.ltb (sq_distance p (mkPoint 9 9)) (sq_distance q (mkPoint 9 9)) = false.
Proof.
  assert (Hirr : forall d, Z.ltb d d = false) by (intros d; apply Z.ltb_irrefl).
  assert (Htr : forall a b d, Z.ltb a b = true -> Z.ltb b d = true -> Z.ltb a d = true)
    by (intros a b d; rewrite !Z.ltb_lt; lia).
  assert (Hne : points_of (grid_with [mkPoint 5 5; mkPoint 12 3])
                  (ring_of (grow_n 0 (home_window (mkPoint 9 9)))) <> [])
    by (vm_compute; discriminate).
  assert (Hk : (0 < Z.to_nat (rings_needed (home_window (mkPoint 9 9))))%nat)
    by (vm_compute; lia).
  split; [exact Hirr|]. split; [exact Htr|]. split; [reflexivity|]. split; [reflexivity|].
  destruct (nearest_neighbor_best_of_two_rings sq_distance Z.ltb FAR
              (grid_with [mkPoint 5 5; mkPoint 12 3]) (mkPoint 9 9) 0%nat
              Hirr Htr eq_refl eq_refl Hk ltac:(intros j Hj; lia) Hne)
    as (q & Hrun & _ & Hmin).
  exists q. split; [exact Hrun|exact Hmin].
Defined.

Lemma insert_then_nearest_neighbor_witness :
  (forall d, Z.ltb d d = false)
  /\ (forall a b d, Z.ltb a b = true -> Z.ltb b d = true -> Z.ltb a d = true)
  /\ grid_wf (grid_with [mkPoint 18 18]) = true
  /\ (0 <= 12 <= MAX)
  /\ exists q g' t,
       (let! _ := insert (mkPoint 12 12) in
        nearest_neighbor sq_distance Z.ltb FAR (mkPoint 12 12)) (grid_with [mkPoint 18 18])
       = Ok (q, g', t)
       /\ stored g' (mkPoint 12 12) /\ stored g' q
       /\ Z.ltb (sq_distance (mkPoint 12 12) (mkPoint 12 12))
                (sq_distance q (mkPoint 12 12)) = false.
Proof.
  assert (Hirr : forall d, Z.ltb d d = false) by (intros d; apply Z.ltb_irrefl).
  assert (Htr : forall a b d, Z.ltb a b = true -> Z.ltb b d = true -> Z.ltb a d = true)
    by (intros a b d; rewrite !Z.ltb_lt; lia).
  assert (Hr : 0 <= 12 <= MAX) by (unfold MAX; lia).
  split; [exact Hirr|]. split; [exact Htr|]. split; [reflexivity|]. split; [exact Hr|].
  apply (insert_then_nearest_neighbor sq_distance Z.ltb FAR (grid_with [mkPoint 18 18])
           (mkPoint 12 12) Hirr Htr eq_refl Hr Hr).
Defined.

Lemma nearest_neighbor_never_reads_home_row_witness :
  grid_wf (grid_with [mkPoint 5 15; mkPoint 15 15]) = true
  /\ int_point (mkPoint 5 15) = true
  /\ 0 < hash_func 15 < hash_func MAX
  /\ 1 <> hash_func 5
  /\ nearest_neighbor sq_distance Z.ltb FAR (mkPoint 5 15)
       (grid_with [mkPoint 5 15; mkPoint 15 15])
     = Ok (mkPoint 5 15, grid_with [mkPoint 5 15; mkPoint 15 15],
           [(0, 1); (0, 1); (1, 2); (1, 0); (0, 2); (0, 0)])
  /\ (1, hash_func 15) ∉ [(0, 1); (0, 1); (1, 2); (1, 0); (0, 2); (0, 0)].
Proof.
  assert (Hrow : 0 < hash_func 15 < hash_func MAX) by (vm_compute; split; reflexivity).
  assert (Hx : 1 <> hash_func 5) by (vm_compute; discriminate).
  assert (Hrun : nearest_neighbor sq_distance Z.ltb FAR (mkPoint 5 15)
                   (grid_with [mkPoint 5 15; mkPoint 15 15])
                 = Ok (mkPoint 5 15, grid_with [mkPoint 5 15; mkPoint 15 15],
                       [(0, 1); (0, 1); (1, 2); (1, 0); (0, 2); (0, 0)]))
    by (vm_compute; reflexivity).
  split; [reflexivity|]. split; [reflexivity|]. split; [exact Hrow|]. split; [exact Hx|].
  split; [exact Hrun|].
  apply (nearest_neighbor_never_reads_home_row sq_distance Z.ltb FAR
           (grid_with [mkPoint 5 15; mkPoint 15 15]) (mkPoint 5 15) _ _ _ 1
           eq_refl eq_refl Hrow Hx Hrun).
Defined.

Lemma nearest_neighbor_empty_grid_iterations_witness :
  int_point (mkPoint 500 500) = true
  /\ (forall fuel, (fuel <= Z.to_nat (rings_needed (home_window (mkPoint 500 500))))%nat ->
        nearest_neighbor_loop sq_distance Z.ltb fuel (mkPoint 500 500)
          (home_window (mkPoint 500 500)) (no_candidate FAR) GRID_init = OutOfFuel).
Proof.
  split; [reflexivity|].
  apply (proj1 (nearest_neighbor_empty_grid_iterations sq_distance Z.ltb FAR
                  (mkPoint 500 500) eq_refl)).
Defined.

Lemma nearest_neighbor_ignores_initial_dist_witness :
  grid_wf (grid_with [mkPoint 5 5; mkPoint 995 995]) = true
  /\ int_point (mkPoint 700 2) = true
  /\ nearest_neighbor sq_distance Z.ltb 0 (mkPoint 700 2)
       (grid_with [mkPoint 5 5; mkPoint 995 995])
     = nearest_neighbor sq_distance Z.ltb FAR (mkPoint 700 2)
         (grid_with [mkPoint 5 5; mkPoint 995 995]).
Proof.
  split; [reflexivity|]. split; [reflexivity|].
  apply (nearest_neighbor_ignores_initial_dist sq_distance Z.ltb 0 FAR
           (grid_with [mkPoint 5 5; mkPoint 995 995]) (mkPoint 700 2) eq_refl eq_refl).
Defined.

Lemma insert_commute_witness :
  grid_wf (grid_with [mkPoint 7 7]) = true
  /\ (clamp_cell (hash_func 5), clamp_cell (hash_func 5))
     <> (clamp_cell (hash_func 15), clamp_cell (hash_func 5))
  /\ exists g' cp cq,
       (let! _ := insert (mkPoint 5 5) in insert (mkPoint 15 5)) (grid_with [mkPoint 7 7])
       = Ok (tt, g', [cp; cq])
       /\ (let! _ := insert (mkPoint 15 5) in insert (mkPoint 5 5))
            (grid_with [mkPoint 7 7])
          = Ok (tt, g', [cq; cp]).
Proof.
  assert (Hne : (clamp_cell (hash_func 5), clamp_cell (hash_func 5))
                <> (clamp_cell (hash_func 15), clamp_cell (hash_func 5)))
    by (vm_compute; discriminate).
  split; [reflexivity|]. split; [exact Hne|].
  apply (insert_commute (grid_with [mkPoint 7 7]) (mkPoint 5 5) (mkPoint 15 5)
           eq_refl Hne).
Defined.
